(** * Visibility-window notebooks: entry/exit tables, window pairing,
      coordinate conversion and sidereal time

    The development follows the four notebooks of the repository:
    - the ground field-of-view notebook (detectors, propagation loop and the
      three entry/exit/duration tables),
    - the latitude/longitude crossing notebook (truncation to a common
      length and the entry/exit order adjustment),
    - the Cartesian to RA/Dec conversion,
    - the local sidereal time computation.

    Times are exact rationals (seconds), the formulas of the conversion
    and of the Kepler elements are stated over [R], the sidereal-time cells
    are computed in binary64 doubles as Python computes them, and the
    fragment of Python and pandas behaviour the cells rely on (exceptions,
    [str.replace], frame construction, mixed [int] and [float] arithmetic)
    is written out. *)

From Stdlib Require Import List String Ascii Bool Arith ZArith QArith Qround Qabs Qminmax Lia.
From Stdlib Require Import Sorted Reals Lra.
From Stdlib Require Lqa.
From Stdlib Require Floats.
Import ListNotations.

(* ------------------------------------------------------------------ *)
(** ** Python and pandas fragment used by the cells *)

Module Py.

(** The exceptions a cell of the notebooks can end with. *)
Inductive Exception : Type :=
| NameError     (* a global read before its first assignment *)
| ValueError    (* pandas: "All arrays must be of the same length" *)
| OverflowError (* an [int] too large for a [float]; a power out of range *)
| ZeroDivisionError.

Definition Result (A : Type) : Type := (Exception + A)%type.

Definition ret {A} (a : A) : Result A := inr a.
Definition raise {A} (e : Exception) : Result A := inl e.
Definition bind {A B} (m : Result A) (k : A -> Result B) : Result B :=
  match m with
  | inl e => inl e
  | inr a => k a
  end.

(** [for x in xs: body], where the body may raise. *)
Fixpoint for_each {S X} (body : S -> X -> Result S) (xs : list X) (s : S)
  : Result S :=
  match xs with
  | [] => ret s
  | x :: rest => bind (body s x) (for_each body rest)
  end.

(** [s.replace(old, new)] for a one-character [old]. *)
Fixpoint replace (old : ascii) (new : string) (s : string) : string :=
  match s with
  | EmptyString => EmptyString
  | String c rest =>
      if Ascii.eqb c old then new ++ replace old new rest
      else String c (replace old new rest)
  end.

(** [a > b] on [str]: lexicographic on code points. *)
Definition str_gt (a b : string) : bool :=
  match String.compare a b with
  | Gt => true
  | _ => false
  end.

(** [l[i] = v] on a list that has index [i]. *)
Fixpoint set_item {A} (l : list A) (i : nat) (v : A) : list A :=
  match l, i with
  | [], _ => []
  | _ :: t, O => v :: t
  | h :: t, S j => h :: set_item t j v
  end.

(** [s.count(c)] for a one-character [c]. *)
Fixpoint count_char (c : ascii) (s : string) : nat :=
  match s with
  | EmptyString => 0
  | String a rest => ((if Ascii.eqb a c then 1 else 0) + count_char c rest)%nat
  end.

End Py.

(* ------------------------------------------------------------------ *)
(** ** Python's [float]: binary64 doubles and their mix with [int] *)

Module PyFloat.
Import Stdlib.Floats.Floats.
Import Py.
#[local] Set Warnings "-inexact-float".

(** An [int] as a number of the format before any rounding. *)
Definition exact (z : Z) : spec_float :=
  match z with
  | Z0 => S754_zero false
  | Zpos m => S754_finite false m 0
  | Zneg m => S754_finite true m 0
  end.

(** The result of an operation on [int] that must fit a [float]. *)
Definition finite_or_overflow (x : float) : Result float :=
  if is_infinity x then raise OverflowError else ret x.

(** [float(z)], also the conversion of the [int] operand of a mixed
    operation: the nearest double, ties to even. *)
Definition float_of_int (z : Z) : Result float :=
  finite_or_overflow (SF2Prim (binary_normalize prec emax z 0 false)).

(** [a / b] on two [int]: the quotient, correctly rounded. *)
Definition truediv (a b : Z) : Result float :=
  if (b =? 0)%Z then raise ZeroDivisionError
  else finite_or_overflow (SF2Prim (SFdiv prec emax (exact a) (exact b))).

(** [int(x)] on a [float]: truncation toward zero. *)
Definition int_of_float (x : float) : Result Z :=
  match Prim2SF x with
  | S754_zero _ => ret 0%Z
  | S754_finite s m e =>
      let v := match e with
               | Z0 => Zpos m
               | Zpos _ => Z.shiftl (Zpos m) e
               | Zneg _ => Z.shiftr (Zpos m) (- e)
               end in
      ret (if s then (- v)%Z else v)
  | S754_infinity _ => raise OverflowError
  | S754_nan => raise ValueError
  end.

(** [x ** n] on a [float] and a positive [int]: the C library's [pow],
    taken as the power correctly rounded. *)
Definition pow (x : float) (n : positive) : Result float :=
  match Prim2SF x with
  | S754_finite s m e =>
      let p := Z.pow (Zpos m) (Zpos n) in
      let negative := s && Z.odd (Zpos n) in
      finite_or_overflow
        (SF2Prim (binary_normalize prec emax (if negative then (- p)%Z else p)
                                   (Zpos n * e) false))
  | S754_zero s => ret (if s && Z.odd (Zpos n) then neg_zero else zero)
  | S754_infinity s => ret (if s && Z.odd (Zpos n) then neg_infinity else infinity)
  | S754_nan => ret nan
  end.

(** C's [fmod(x, y)]: the remainder of the truncated quotient, which is
    exact, with the sign of [x]. *)
Definition fmod (x y : float) : float :=
  match Prim2SF x, Prim2SF y with
  | S754_nan, _ | _, S754_nan => nan
  | S754_infinity _, _ => nan
  | _, S754_zero _ => nan
  | S754_zero _, _ => x
  | S754_finite _ _ _, S754_infinity _ => x
  | S754_finite sx mx ex, S754_finite _ my ey =>
      let e := Z.min ex ey in
      let r := Z.modulo (Z.shiftl (Zpos mx) (ex - e)) (Z.shiftl (Zpos my) (ey - e)) in
      SF2Prim (binary_normalize prec emax (if sx then (- r)%Z else r) e sx)
  end.

(** [x % y] on [float]: [fmod], then the divisor is added when the
    remainder is not zero and has the other sign; the sum is rounded. *)
Definition mod_ (x y : float) : Result float :=
  if (y =? 0)%float then raise ZeroDivisionError
  else
    let m := fmod x y in
    if (m =? 0)%float then ret (if (y <? 0)%float then neg_zero else zero)
    else if xorb (y <? 0)%float (m <? 0)%float then ret (m + y)%float
    else ret m.

End PyFloat.

(* ------------------------------------------------------------------ *)
(** ** The objects of the astrodynamics library the cells handle *)

Module Orekit.

(** An [AbsoluteDate]: its printed ISO-8601 form ([str(date)]) and its
    offset in seconds from a reference epoch. *)
Record AbsoluteDate : Type := mkDate { iso : string; offset : Q }.

Definition durationFrom (d since : AbsoluteDate) : Q := offset d - offset since.

(** An event as [EventsLogger.getLoggedEvents()] returns it:
    [event.getState().getDate()] and [event.isIncreasing()]. *)
Record LoggedEvent : Type := mkEvent { getDate : AbsoluteDate; isIncreasing : bool }.

End Orekit.

(* ------------------------------------------------------------------ *)
(** ** Ground field-of-view notebook: the three event tables *)

Module FoV.
Import Py Orekit.

(** One displayed row: entry, exit, duration in minutes. *)
Record Row : Type := mkRow { Entry : string; Exit : string; Duration : Q }.

(** The names a table cell assigns: the three lists and the date of the
    latest entry ([gfov_entry], [ele_entry], [comb_entry]), unbound
    until the first entry event. *)
Record Cell : Type := mkCell {
  entry_list : list string;
  exit_list : list string;
  duration_list : list Q;
  entry_date : option AbsoluteDate
}.

Definition fresh : Cell := mkCell [] [] [] None.

Definition arrow : string := " ==> ".

(** [str(date).replace("T", " ==> ")] *)
Definition date_str (d : AbsoluteDate) : string := replace "T"%char arrow (iso d).

(** The body shared by the three loops; [is_entry] is the test of the
    [if]. On the [else] branch the exit string is appended first, then
    the duration is computed from the latest entry date. *)
Definition body (is_entry : LoggedEvent -> bool) (st : Cell) (event : LoggedEvent)
  : Result Cell :=
  if is_entry event then
    ret (mkCell (entry_list st ++ [date_str (getDate event)])
                (exit_list st) (duration_list st)
                (Some (getDate event)))
  else
    match entry_date st with
    | None => raise NameError
    | Some en =>
        ret (mkCell (entry_list st)
                    (exit_list st ++ [date_str (getDate event)])
                    (duration_list st ++ [durationFrom (getDate event) en / 60])
                    (entry_date st))
    end.

(** [pd.DataFrame({...})] on three columns. *)
Definition DataFrame (st : Cell) : Result (list Row) :=
  if (List.length (entry_list st) =? List.length (exit_list st))%nat
     && (List.length (exit_list st) =? List.length (duration_list st))%nat
  then ret (map (fun p => mkRow (fst (fst p)) (snd (fst p)) (snd p))
                (combine (combine (entry_list st) (exit_list st)) (duration_list st)))
  else raise ValueError.

(** [if not event.isIncreasing():] entry [else:] exit *)
Definition gfov_is_entry (event : LoggedEvent) : bool := negb (isIncreasing event).
(** [if event.isIncreasing():] entry [else:] exit *)
Definition ele_is_entry (event : LoggedEvent) : bool := isIncreasing event.
Definition comb_is_entry (event : LoggedEvent) : bool := isIncreasing event.

Definition gfov_loop (gfov_events : list LoggedEvent) : Result Cell :=
  for_each (body gfov_is_entry) gfov_events fresh.
Definition ele_loop (ele_events : list LoggedEvent) : Result Cell :=
  for_each (body ele_is_entry) ele_events fresh.
Definition comb_loop (comb_events : list LoggedEvent) : Result Cell :=
  for_each (body comb_is_entry) comb_events fresh.

Definition df_gfov (gfov_events : list LoggedEvent) : Result (list Row) :=
  bind (gfov_loop gfov_events) DataFrame.
Definition df_ele (ele_events : list LoggedEvent) : Result (list Row) :=
  bind (ele_loop ele_events) DataFrame.
Definition df_comb (comb_events : list LoggedEvent) : Result (list Row) :=
  bind (comb_loop comb_events) DataFrame.

(** *** Vocabulary of the statements about the tables *)

Definition dates (events : list LoggedEvent) : list string :=
  map (fun event => date_str (getDate event)) events.

(** Events whose date goes to the entry column when the test of the
    loop is [event.isIncreasing()], and to the exit column otherwise. *)
Definition increasing_enters (events : list LoggedEvent) (st : Cell) : Prop :=
  entry_list st = dates (filter isIncreasing events)
  /\ exit_list st = dates (filter (fun e => negb (isIncreasing e)) events).

(** The same with the two columns exchanged. *)
Definition decreasing_enters (events : list LoggedEvent) (st : Cell) : Prop :=
  entry_list st = dates (filter (fun e => negb (isIncreasing e)) events)
  /\ exit_list st = dates (filter isIncreasing events).

(** The log is in nondecreasing order of time. *)
Definition chronological (events : list LoggedEvent) : Prop :=
  Sorted (fun a b => offset (getDate a) <= offset (getDate b)) events.

(** A pass: the date of an entry and the date of the exit after it. *)
Definition Pass : Type := (AbsoluteDate * AbsoluteDate)%type.

(** The log of a detector whose indicator is positive during each pass
    (elevation, combined): increasing at the entry, decreasing at the
    exit. *)
Definition log_of (passes : list Pass) : list LoggedEvent :=
  flat_map (fun p => [mkEvent (fst p) true; mkEvent (snd p) false]) passes.

(** The log of the field-of-view detector, whose indicator is negative
    during each pass. *)
Definition gfov_log_of (passes : list Pass) : list LoggedEvent :=
  flat_map (fun p => [mkEvent (fst p) false; mkEvent (snd p) true]) passes.

(** The row displayed for a pass. *)
Definition row_of (p : Pass) : Row :=
  mkRow (date_str (fst p)) (date_str (snd p)) (durationFrom (snd p) (fst p) / 60).

(** Dates taken from the displayed output of the notebook; offsets in
    seconds from the first date of each table. *)
Definition gfov_in_1 : AbsoluteDate := mkDate "2024-09-21T13:10:20.94733983067657Z" 0.
Definition gfov_out_1 : AbsoluteDate := mkDate "2024-09-21T13:11:10.75206554302383Z" 49.80472571234726.
Definition gfov_in_2 : AbsoluteDate := mkDate "2024-09-23T19:43:05.27890712249455Z" 196364.33156729181798.
Definition gfov_out_2 : AbsoluteDate := mkDate "2024-09-23T19:43:39.32391538482981Z" 196398.37657555415324.
Definition ele_in_1 : AbsoluteDate := mkDate "2024-09-21T11:31:04.3889233428157Z" 0.
Definition ele_out_1 : AbsoluteDate := mkDate "2024-09-21T11:38:05.34339719106884Z" 420.95447384825314.

Definition first_pass_in : LoggedEvent := mkEvent gfov_in_1 false.
Definition first_pass_out : LoggedEvent := mkEvent gfov_out_1 true.
Definition ele_pass : list LoggedEvent := log_of [(ele_in_1, ele_out_1)].

(** A field-of-view log that ends while the satellite is inside the
    field of view: the last entry has no exit. *)
Definition open_pass : list LoggedEvent :=
  [first_pass_in; first_pass_out; mkEvent gfov_in_2 false].

(** A log that starts while the satellite is above the horizon: the
    first event is an exit. *)
Definition late_start : list LoggedEvent :=
  [mkEvent ele_out_1 false].

(** *** Detector configuration and the propagation loop *)

Inductive Handler : Type := ContinueOnEvent | StopOnEvent.

(** What the notebook sets on a detector: [withMaxCheck], [withHandler]. *)
Record Detector : Type := mkDetector { maxCheck : Q; handler : Handler }.

Definition withMaxCheck (d : Detector) (m : Q) : Detector := mkDetector m (handler d).
Definition withHandler (d : Detector) (h : Handler) : Detector := mkDetector (maxCheck d) h.

(** [GroundFieldOfViewDetector(myFoVFrame, imagerFOV).withMaxCheck(5.0)
    .withHandler(ContinueOnEvent())], from a library detector [d0]. *)
Definition GFoVDetector (d0 : Detector) : Detector :=
  withHandler (withMaxCheck d0 5) ContinueOnEvent.

(** The literal of [initialDate.shiftedBy(10.0)]. *)
Definition shift : Q := 10.

Section Propagation.
(** The propagator together with the loggers that monitor its
    detectors, and what one query of it returns. *)
Variables World Position : Type.
(** [SGP4.addEventDetector(logger.monitorDetector(d))] *)
Variable addEventDetector : World -> Detector -> World.
(** [SGP4.getPVCoordinates(date, ITRF).getPosition()]: advances the
    propagator to [date] and returns the position there. *)
Variable getPVCoordinates : World -> Q -> World * Position.

(** [while initialDate.compareTo(finalDate) <= 0: ... pos.append(...);
    initialDate = initialDate.shiftedBy(dt)]; [None] when [fuel]
    iterations did not reach the end of the loop. *)
Fixpoint propagation (fuel : nat) (dt : Q) (w : World) (initialDate finalDate : Q)
         (pos : list Position) : option (World * list Position) :=
  if Qle_bool initialDate finalDate then
    match fuel with
    | O => None
    | S fuel' =>
        let (w', p) := getPVCoordinates w initialDate in
        propagation fuel' dt w' (initialDate + dt) finalDate (pos ++ [p])
    end
  else Some (w, pos).

(** The cells in order: register the detectors, then propagate. *)
Definition notebook (fuel : nat) (w0 : World) (detectors : list Detector) (dt : Q)
           (initialDate finalDate : Q) : option (World * list Position) :=
  propagation fuel dt (fold_left addEventDetector detectors w0)
              initialDate finalDate [].

(** The dates the loop queries: [n] dates from [d] on, [dt] apart. *)
Fixpoint shifted (n : nat) (d dt : Q) : list Q :=
  match n with
  | O => []
  | S k => d :: shifted k (d + dt) dt
  end.

(** The propagator after a list of queries, and the positions they
    returned. *)
Fixpoint queries (w : World) (ds : list Q) : World * list Position :=
  match ds with
  | [] => (w, [])
  | d :: rest =>
      let (w', p) := getPVCoordinates w d in
      let (w'', ps) := queries w' rest in
      (w'', p :: ps)
  end.

(** Number of iterations of the loop. *)
Definition iterations (dt initialDate finalDate : Q) : nat :=
  if Qle_bool initialDate finalDate
  then Z.to_nat (Qfloor ((finalDate - initialDate) / dt) + 1)
  else O.
End Propagation.

Arguments propagation {World Position} getPVCoordinates fuel dt w initialDate finalDate pos.
Arguments notebook {World Position} addEventDetector getPVCoordinates
          fuel w0 detectors dt initialDate finalDate.
Arguments queries {World Position} getPVCoordinates w ds.

(** A propagator for the examples: it keeps the detectors it was given
    and a log with one event per query, and returns the date queried. *)
Definition Recorder : Type := (list Detector * list LoggedEvent)%type.

Definition record_detector (w : Recorder) (d : Detector) : Recorder :=
  (fst w ++ [d], snd w).

Definition record_query (w : Recorder) (d : Q) : Recorder * Q :=
  ((fst w, snd w ++ [mkEvent (mkDate "query" d) true]), d).

(** The propagation span of the notebook: [3600.0 * 72] seconds. *)
Definition span : Q := 3600 * 72.

(** A detector as the library hands it over, before the notebook sets
    its maximum-check interval and its handler. *)
Definition library_detector : Detector := mkDetector 600 StopOnEvent.

(** *** Vocabulary of the statements about arbitrary logs *)

(** The first logged event goes to the exit branch of the loop. *)
Definition starts_with_exit (is_entry : LoggedEvent -> bool) (events : list LoggedEvent) : bool :=
  match events with
  | [] => false
  | event :: _ => negb (is_entry event)
  end.

(** Number of events that take the entry branch, and the exit branch. *)
Definition entries (is_entry : LoggedEvent -> bool) (events : list LoggedEvent) : nat :=
  List.length (filter is_entry events).
Definition exits (is_entry : LoggedEvent -> bool) (events : list LoggedEvent) : nat :=
  List.length (filter (fun e => negb (is_entry e)) events).

(** What a table cell ends with on a log: [NameError] when the log
    starts with an exit, otherwise a table with one row per exit when
    entries and exits are as many, otherwise [ValueError]. *)
Definition outcome (is_entry : LoggedEvent -> bool) (events : list LoggedEvent)
           (r : Result (list Row)) : Prop :=
  if starts_with_exit is_entry events then r = inl NameError
  else if (entries is_entry events =? exits is_entry events)%nat
       then exists rows, r = inr rows /\ List.length rows = exits is_entry events
       else r = inl ValueError.

(** The date of the last entry among the events [before] an event. *)
Definition latest_entry (is_entry : LoggedEvent -> bool) (before : list LoggedEvent)
  : option AbsoluteDate :=
  option_map getDate (find is_entry (rev before)).

(** The three loops of the notebook, each with the test of its [if]. *)
Definition loops : list ((list LoggedEvent -> Result Cell) * (LoggedEvent -> bool)) :=
  [(gfov_loop, gfov_is_entry); (ele_loop, ele_is_entry); (comb_loop, comb_is_entry)].

(** A field-of-view log with two entries in a row: the exit of the
    first pass was not logged. *)
Definition reentry : list LoggedEvent :=
  [first_pass_in; mkEvent gfov_in_2 false].

(** [initialDate] after [n] iterations of the propagation loop. *)
Fixpoint advanced (n : nat) (d dt : Q) : Q :=
  match n with
  | O => d
  | S k => advanced k (d + dt)%Q dt
  end.

End FoV.

(* ------------------------------------------------------------------ *)
(** ** Latitude/longitude crossing notebook: the entry/exit table *)

Module LatLon.
Import Py Orekit.

(** One row of [lat_df] / [lon_df]. *)
Record Row : Type := mkRow { Entries : string; Exits : string }.

(** [for event in events: lst.append(str(event.getState().getDate()))] *)
Definition logged (events : list LoggedEvent) : list string :=
  map (fun event => iso (getDate event)) events.

(** [min(len(df_giris), len(df_cikis))] *)
Definition min_length (df_giris df_cikis : list string) : nat :=
  Nat.min (List.length df_giris) (List.length df_cikis).

(** [pd.concat([df_giris, df_cikis], axis=1)], used on two frames that
    were cut to the same number of rows. *)
Definition concat (df_giris df_cikis : list string) : list Row :=
  map (fun p => mkRow (fst p) (snd p)) (combine df_giris df_cikis).

(** One iteration of the adjustment loop at index [i]: the tuple
    assignment reads both cells, then writes them crosswise. *)
Definition adjust (df : list Row) (i : nat) : list Row :=
  match nth_error df i with
  | Some r =>
      if str_gt (Entries r) (Exits r)
      then set_item df i (mkRow (Exits r) (Entries r))
      else df
  | None => df
  end.

(** [for i in range(len(df)): ...] *)
Definition order_adjustment (df : list Row) : list Row :=
  fold_left adjust (seq 0 (List.length df)) df.

(** The table cell from the two lists of date strings on. *)
Definition table (giris cikis : list string) : list Row :=
  let n := min_length giris cikis in
  order_adjustment (concat (firstn n giris) (firstn n cikis)).

Definition lat_df (lat_entry_events lat_exit_events : list LoggedEvent) : list Row :=
  table (logged lat_entry_events) (logged lat_exit_events).

Definition lon_df (lon_entry_events lon_exit_events : list LoggedEvent) : list Row :=
  table (logged lon_entry_events) (logged lon_exit_events).

(** The row the adjustment leaves for a pair. *)
Definition ordered (r : Row) : Row :=
  if str_gt (Entries r) (Exits r) then mkRow (Exits r) (Entries r) else r.

(** The comparison of the printed forms of two dates agrees with their
    order in time, as it does for prints of one fixed width. *)
Definition print_order_agrees (a b : AbsoluteDate) : Prop :=
  str_gt (iso a) (iso b) = true <-> offset b < offset a.

(** Occurrences that are in the two logs and not in the table. *)
Definition dropped (giris cikis : list string) : nat :=
  (List.length giris - min_length giris cikis)
  + (List.length cikis - min_length giris cikis).


End LatLon.

(* ------------------------------------------------------------------ *)
(** ** Cartesian (ECI) to right ascension and declination *)

Module RaDec.
Local Open Scope R_scope.

(** [math.atan2(y, x)] on real numbers. *)
Definition atan2 (y x : R) : R :=
  if Rlt_dec 0 x then atan (y / x)
  else if Rlt_dec x 0 then
         (if Rle_dec 0 y then atan (y / x) + PI else atan (y / x) - PI)
  else if Rlt_dec 0 y then PI / 2
  else if Rlt_dec y 0 then - (PI / 2)
  else 0.

Definition degrees (a : R) : R := a * (180 / PI).
Definition radians (d : R) : R := d * (PI / 180).

Definition cartesian_to_radec (x y z : R) : R * R :=
  let ra := atan2 y x in
  let dec := atan2 z (sqrt (x ^ 2 + y ^ 2)) in
  let ra := degrees ra in
  let ra := if Rlt_dec ra 0 then ra + 360 else ra in
  let dec := degrees dec in
  (ra, dec).

(** The check cell: [R*check_x, R*check_y, R*check_z]. *)
Definition check (x y z : R) : R * R * R :=
  let R := sqrt (x ^ 2 + y ^ 2 + z ^ 2) in
  let (ra, dec) := cartesian_to_radec x y z in
  let check_x := cos (radians ra) * cos (radians dec) in
  let check_y := sin (radians ra) * cos (radians dec) in
  let check_z := sin (radians dec) in
  (R * check_x, R * check_y, R * check_z).

End RaDec.

(* ------------------------------------------------------------------ *)
(** ** Universal time to local sidereal time *)

Module SiderealTime.
Import Stdlib.Floats.Floats.
Import Py PyFloat.
#[local] Set Warnings "-inexact-float".
Local Open Scope float_scope.

Local Notation "'let*' x ':=' m 'in' k" := (bind m (fun x => k))
  (at level 10, x name, m at level 100, k at level 200).

(** The cells read [year], [month], [day], [hour] and [minute] with
    [int(input(...))], [second] and [longitude] with [float(input(...))]. *)

(** [UT = hour + minute/60 + second/3600] *)
Definition UT (hour minute : Z) (second : float) : Result float :=
  let* m := truediv minute 60 in
  let* h := float_of_int hour in
  ret (h + m + second / 3600).

(** Julian day number at 0h UT:
    [J0 = 367*year - int(7*(year + int((month + 9)/12))/4)
          + int((275*month)/9) + day + 1721013.5] *)
Definition J0 (year month day : Z) : Result float :=
  let* a := truediv (month + 9) 12 in
  let* a := int_of_float a in
  let* b := truediv (7 * (year + a)) 4 in
  let* b := int_of_float b in
  let* c := truediv (275 * month) 9 in
  let* c := int_of_float c in
  let* n := float_of_int (367 * year - b + c + day)%Z in
  ret (n + 1721013.5).

(** [JD = J0 + UT/24] *)
Definition JD (year month day hour minute : Z) (second : float) : Result float :=
  let* UT := UT hour minute second in
  let* J0 := J0 year month day in
  ret (J0 + UT / 24).

(** [T0 = (J0 - 2451545) / 36525] *)
Definition T0 (year month day : Z) : Result float :=
  let* J0 := J0 year month day in
  ret ((J0 - 2451545) / 36525).

(** Greenwich sidereal time at 0h UT, in degrees:
    [teta_g0 = 100.4606184 + 36000.77004*T0 + 0.000387933*T0**2
               - 2.583*1e-8*T0**3] *)
Definition teta_g0 (year month day : Z) : Result float :=
  let* T0 := T0 year month day in
  let* T0_2 := PyFloat.pow T0 2 in
  let* T0_3 := PyFloat.pow T0 3 in
  ret (100.4606184 + 36000.77004 * T0 + 0.000387933 * T0_2 - 2.583 * 1e-8 * T0_3).

(** Greenwich sidereal time, in degrees:
    [teta_g = teta_g0 + 360.98564724*(UT/24)] *)
Definition teta_g (year month day hour minute : Z) (second : float) : Result float :=
  let* UT := UT hour minute second in
  let* teta_g0 := teta_g0 year month day in
  ret (teta_g0 + 360.98564724 * (UT / 24)).

(** Local sidereal time, in degrees: [teta = (teta_g + longitude) % 360] *)
Definition teta (year month day hour minute : Z) (second longitude : float)
  : Result float :=
  let* teta_g := teta_g year month day hour minute second in
  mod_ (teta_g + longitude) 360.

(** The calendar the day count is compared with: a leap year every
    fourth year, which is the civil calendar from 1901 to 2099. *)
Definition leap (year : Z) : bool := (year mod 4 =? 0)%Z.

Definition month_length (year month : Z) : Z :=
  if (month =? 2)%Z then (if leap year then 29 else 28)%Z
  else if ((month =? 4) || (month =? 6) || (month =? 9) || (month =? 11))%Z then 30%Z
  else 31%Z.

(** The day after [day] of [month] in [year]. *)
Definition next_day (year month day : Z) : Z * Z * Z :=
  if (day <? month_length year month)%Z then (year, month, day + 1)%Z
  else if (month <? 12)%Z then (year, month + 1, 1)%Z
  else (year + 1, 1, 1)%Z.

Definition on_date {A} (f : Z -> Z -> Z -> A) (date : Z * Z * Z) : A :=
  let '(year, month, day) := date in f year month day.

(** The whole part of [J0] in exact integer arithmetic. *)
Definition day_number (year month day : Z) : Z :=
  (367 * year - Z.quot (7 * (year + Z.quot (month + 9) 12)) 4
   + Z.quot (275 * month) 9 + day)%Z.

(** Checks that are run over a range of integers: [int(a / b)] is the
    integer quotient of [a] by [b]; adding 1721013.5 to [n] and to
    [n + 1] gives two doubles that are one apart. *)
Definition quotient_agrees (a b : Z) : bool :=
  match truediv a b with
  | inr f => match int_of_float f with
             | inr q => (q =? Z.quot a b)%Z
             | inl _ => false
             end
  | inl _ => false
  end.

Definition step_is_exact (n : Z) : bool :=
  match float_of_int n, float_of_int (n + 1) with
  | inr f, inr g => Leibniz.eqb (g + 1721013.5) (f + 1721013.5 + 1)
  | _, _ => false
  end.

(** [P] holds of the [n] integers from [lo] on. *)
Fixpoint holds_from (P : Z -> bool) (lo : Z) (n : nat) : bool :=
  match n with
  | O => true
  | S k => P lo && holds_from P (lo + 1)%Z k
  end.

End SiderealTime.

(* ------------------------------------------------------------------ *)
(** ** Latitude/longitude crossing notebook: position and velocity to
    Kepler elements *)

Module Kepler.
Import RaDec.
Local Open Scope R_scope.

(** A numpy array of three numbers. *)
Definition Vec : Type := (R * R * R)%type.

Definition x_ (a : Vec) : R := fst (fst a).
Definition y_ (a : Vec) : R := snd (fst a).
Definition z_ (a : Vec) : R := snd a.

(** [np.dot(a, b)] *)
Definition dot (a b : Vec) : R := x_ a * x_ b + y_ a * y_ b + z_ a * z_ b.

(** [np.cross(a, b)] *)
Definition cross (a b : Vec) : Vec :=
  (y_ a * z_ b - z_ a * y_ b, z_ a * x_ b - x_ a * z_ b, x_ a * y_ b - y_ a * x_ b).

(** [k * a] and [a - b] on arrays. *)
Definition scale (k : R) (a : Vec) : Vec := (k * x_ a, k * y_ a, k * z_ a).
Definition minus (a b : Vec) : Vec := (x_ a - x_ b, y_ a - y_ b, z_ a - z_ b).

(** [sqrt(a[0]**2 + a[1]**2 + a[2]**2)] *)
Definition mag (a : Vec) : R := sqrt (x_ a ^ 2 + y_ a ^ 2 + z_ a ^ 2).

(** Standard gravitational parameter, km^3/s^2. *)
Definition Mu : R := 398600.

(** [np.arccos(c)] in the first branch of an [if], [radians(360 -
    degrees(np.arccos(c)))] in the other. *)
Definition angle (first_half : bool) (c : R) : R :=
  if first_half then acos c else radians (360 - degrees (acos c)).

Section Elements.
(** [pos] and [vel] as the cell has them after the division by 1000:
    position in km and velocity in km/s. *)
Variables pos vel : Vec.

(** [sqrt(pos[0]**2 + pos[1]**2 + pos[2]**2)], and the same on [vel] *)
Definition pos_mag : R := mag pos.
Definition vel_mag : R := mag vel.
(** [np.dot(vel, pos)/pos_mag] *)
Definition velr : R := dot vel pos / pos_mag.

(** [np.cross(pos, vel)] and its magnitude *)
Definition h : Vec := cross pos vel.
Definition h_mag : R := mag h.

(** [np.arccos(h[2]/h_mag)] *)
Definition i : R := acos (z_ h / h_mag).

(** [np.cross([0, 0, 1], h)] and its magnitude *)
Definition N : Vec := cross (0, 0, 1) h.


(** [(1/Mu)*((vel_mag**2-Mu/pos_mag)*pos-pos_mag*velr*vel)] *)
Definition e : Vec :=
  scale (1 / Mu)
        (minus (scale (vel_mag ^ 2 - Mu / pos_mag) pos) (scale (pos_mag * velr) vel)).
(** [sqrt(np.dot(e,e))] *)
Definition e_mag : R := sqrt (dot e e).



(** [(h_mag**2/Mu)*(1/(1 - e_mag**2))*1000]: semi-major axis in metres. *)
Definition a : R := (h_mag ^ 2 / Mu) * (1 / (1 - e_mag ^ 2)) * 1000.

(** [a*(e_mag + 1)/1000]: apoapsis in km. *)
Definition ra : R := a * (e_mag + 1) / 1000.
End Elements.

(** A state for the examples: 7000 km from the centre on the first
    axis, moving outward and out of the equatorial plane. *)
Definition sample_pos : Vec := (7000, 0, 0).
Definition sample_vel : Vec := (1, 5, 5).

End Kepler.

(* ------------------------------------------------------------------ *)
(** ** Event detection engine

    The notebooks obtain their occurrences from the propagation library:
    the combinators ([BooleanDetector.notCombine], [andCombine]) and the
    root-finding scan are called, not defined, in the repository. This
    module writes that engine down from its specification. *)

Module Scanner.
Local Open Scope Q_scope.

(** Modelled from the spec: the direction of an occurrence in the data
    model, Entering (the predicate becomes true) or Exiting (it becomes
    false); occurrences are created by the library's engine, which is not
    in the repository. *)
Inductive Direction : Type := Entering | Exiting.

Definition reverse (d : Direction) : Direction :=
  match d with
  | Entering => Exiting
  | Exiting => Entering
  end.

(** Modelled from the spec: the Occurrence record of the data model
    (timestamp, direction, source identifier); the engine that creates
    occurrences is the library's and is not in the repository. *)
Record Occurrence : Type := mkOccurrence {
  timestamp : Q;
  direction : Direction;
  source : string
}.

(** Modelled from the spec: the policy on detector exhaustion of the scan
    configuration, [Continue | StopAtFirst]; the scanner is not in the
    repository. *)
Inductive OnEvent : Type := Continue | StopAtFirst.

(** Modelled from the spec: the scan configuration of the external
    interfaces (start, end, step budget, resolution, policy), with the
    numeric tolerance and the iteration bound of the refinement that the
    algorithm and the error taxonomy name; the scanner is not in the
    repository. *)
Record ScanConfiguration : Type := mkConfiguration {
  startTime : Q;
  endTime : Q;
  stepBudget : Q;
  resolutionEpsilon : Q;
  valueTolerance : Q;
  maxIterations : nat;
  onEvent : OnEvent
}.

(** Modelled from the spec: how a scan ends, by reaching the end time, by
    the stop policy, or by a clean abort on [StateUnavailable] that keeps
    the occurrences logged so far; the scanner is not in the repository. *)
Inductive Status : Type :=
| Completed          (* the end time was reached *)
| Stopped            (* stop-at-first policy, after the first occurrence *)
| StateUnavailable.  (* the sampler failed; the log so far is kept *)

Definition Qlt_bool (a b : Q) : bool := negb (Qle_bool b a).

Definition same_sign (a b : Q) : bool :=
  match a ?= 0, b ?= 0 with
  | Lt, Lt | Eq, Eq | Gt, Gt => true
  | _, _ => false
  end.

Section Tree.
Variable State : Type.

(** Modelled from the spec: the combinator tree of the design notes,
    [Leaf(predicate) | Not(node) | And(node,node) | Or(node,node)];
    the combinators are the library's and are not in the repository. *)
Inductive Node : Type :=
| Leaf (predicate : State -> Q)
| Not (a : Node)
| And (a b : Node)
| Or (a b : Node).

(** Modelled from the spec: evaluation by recursive descent with
    [NOT(a) = -a], [AND(a, b) = min(a, b)], [OR(a, b) = max(a, b)];
    the combinators are the library's and are not in the repository. *)
Fixpoint evaluate (n : Node) (s : State) : Q :=
  match n with
  | Leaf predicate => predicate s
  | Not a => - evaluate a s
  | And a b => Qmin (evaluate a s) (evaluate b s)
  | Or a b => Qmax (evaluate a s) (evaluate b s)
  end.
End Tree.

Arguments Leaf {State} predicate.
Arguments Not {State} a.
Arguments And {State} a b.
Arguments Or {State} a b.
Arguments evaluate {State} n s.

(** Modelled from the spec: the direction of a sign-change crossing,
    Entering if the value goes from negative to positive, Exiting if it
    goes from positive to negative; the scanner is not in the
    repository. *)
Definition crossing (prevValue currValue : Q) : option Direction :=
  match prevValue ?= 0, currValue ?= 0 with
  | Lt, Gt => Some Entering
  | Gt, Lt => Some Exiting
  | _, _ => None
  end.

(** Modelled from the spec: the outcome of a refinement, a refined time,
    [DegenerateBracket] when it does not converge within the bounded number
    of iterations, or a failed sample; the scanner is not in the
    repository. *)
Inductive Refinement : Type :=
| RootAt (t : Q)
| DegenerateBracket
| Unavailable.

(** Modelled from the spec: what one step of the scan finds, no
    occurrence this step, an occurrence, or a failed sample; the scanner is
    not in the repository. *)
Inductive Detection : Type :=
| NoOccurrence
| Occurred (o : Occurrence)
| Failed.

Section Scan.
Variable cfg : ScanConfiguration.
Variable src : string.
(** The indicator value at a time, [None] when the sampler has no
    state there. *)
Variable value : Q -> option Q.

(** Modelled from the spec: refinement of a bracket by bisection until
    the bracket width is below the resolution or the value magnitude
    is below the tolerance, giving up after the configured number of
    halvings; the scanner is not in the repository. *)
Fixpoint refine (n : nat) (lo hi prevValue : Q) : Refinement :=
  let mid := (lo + hi) / 2 in
  match value mid with
  | None => Unavailable
  | Some v =>
      if Qlt_bool (hi - lo) (resolutionEpsilon cfg)
         || Qlt_bool (Qabs v) (valueTolerance cfg)
      then RootAt mid
      else match n with
           | O => DegenerateBracket
           | S k => if same_sign v prevValue
                    then refine k mid hi prevValue
                    else refine k lo mid prevValue
           end
  end.

(** Modelled from the spec: a value that is exactly zero at a sample
    point is a crossing at that time, Entering if the following sample
    is positive and Exiting otherwise; the scanner is not in the
    repository. *)
Definition at_zero (t : Q) : Detection :=
  match value (t + stepBudget cfg) with
  | None => Failed
  | Some following =>
      Occurred (mkOccurrence t (if Qlt_bool 0 following then Entering else Exiting) src)
  end.

(** Modelled from the spec: steps 3 and 4 of the scan for one pair of
    consecutive samples; a zero that was reported at its own sample
    point opens no bracket, and a bracket whose refinement does not
    converge is skipped; the scanner is not in the repository. *)
Definition detect (prevTime prevValue currTime currValue : Q) : Detection :=
  if Qeq_bool currValue 0 then at_zero currTime
  else
    match crossing prevValue currValue with
    | None => NoOccurrence
    | Some d =>
        match refine (maxIterations cfg) prevTime currTime prevValue with
        | RootAt t => Occurred (mkOccurrence t d src)
        | DegenerateBracket => NoOccurrence
        | Unavailable => Failed
        end
    end.

(** Modelled from the spec: steps 2 to 6 of the scan, [n] steps
    forward from the previous sample; the scanner is not in the
    repository. *)
Fixpoint scan_loop (n : nat) (prevTime prevValue : Q) (log : list Occurrence)
  : list Occurrence * Status :=
  match n with
  | O => (log, Completed)
  | S k =>
      let currTime := prevTime + stepBudget cfg in
      match value currTime with
      | None => (log, StateUnavailable)
      | Some currValue =>
          match detect prevTime prevValue currTime currValue with
          | Failed => (log, StateUnavailable)
          | NoOccurrence => scan_loop k currTime currValue log
          | Occurred o =>
              match onEvent cfg with
              | StopAtFirst => (log ++ [o], Stopped)
              | Continue => scan_loop k currTime currValue (log ++ [o])
              end
          end
      end
  end.

(** Number of steps until the current time reaches the end time. *)
Definition steps : nat :=
  Z.to_nat (Qceiling ((endTime cfg - startTime cfg) / stepBudget cfg)).

(** Modelled from the spec: the scan from the start time (step 1), a
    zero at the start sample being reported like any zero at a sample
    point; the scanner is not in the repository. *)
Definition scan_values : list Occurrence * Status :=
  match value (startTime cfg) with
  | None => ([], StateUnavailable)
  | Some startValue =>
      if Qeq_bool startValue 0 then
        match at_zero (startTime cfg) with
        | Occurred o =>
            match onEvent cfg with
            | StopAtFirst => ([o], Stopped)
            | Continue => scan_loop steps (startTime cfg) startValue [o]
            end
        | _ => ([], StateUnavailable)
        end
      else scan_loop steps (startTime cfg) startValue []
  end.
End Scan.

(** Modelled from the spec: the scanner applied to a combinator tree
    over a state sampler ([sample(time) -> State | StateUnavailable]);
    neither is in the repository. *)
Definition scan {State : Type} (cfg : ScanConfiguration) (src : string)
           (sample : Q -> option State) (node : Node State)
  : list Occurrence * Status :=
  scan_values cfg src (fun t => option_map (evaluate node) (sample t)).

(** *** Vocabulary of the statements about negation *)

(** The values of the negated indicator. *)
Definition negated (value : Q -> option Q) : Q -> option Q :=
  fun t => option_map Qopp (value t).

(** The same occurrence with the other direction. *)
Definition flip (o : Occurrence) : Occurrence :=
  mkOccurrence (timestamp o) (reverse (direction o)) (source o).

(** No sample of the indicator is exactly zero. *)
Definition never_zero (value : Q -> option Q) : Prop :=
  forall t v, value t = Some v -> ~ v == 0.

(** Two occurrences at the same instant from the same source, of opposite
    directions when no sample is exactly zero. *)
Definition mirrored (value : Q -> option Q) (o' o : Occurrence) : Prop :=
  timestamp o' = timestamp o
  /\ source o' = source o
  /\ (never_zero value -> direction o' = reverse (direction o)).

Definition mirrored_detection (value : Q -> option Q) (d' d : Detection) : Prop :=
  match d', d with
  | NoOccurrence, NoOccurrence => True
  | Failed, Failed => True
  | Occurred o', Occurred o => mirrored value o' o
  | _, _ => False
  end.

(** A step indicator that is false before 5/2 and true from 5/2 on. *)
Definition step_indicator : Node Q :=
  Leaf (fun t => if Qlt_bool t (5 # 2) then - (1) else 1).

Definition sample_configuration : ScanConfiguration :=
  mkConfiguration 0 5 1 (1 # 100) (1 # 1000) 20 Continue.

(** Two indicators that are true on [10, 20] and on [15, 25]. *)
Definition first_interval : Node Q := Leaf (fun t => Qmin (t - 10) (20 - t)).
Definition second_interval : Node Q := Leaf (fun t => Qmin (t - 15) (25 - t)).

Definition overlap_configuration : ScanConfiguration :=
  mkConfiguration 0 30 1 (1 # 1000) (1 # 1000000) 50 Continue.

End Scanner.

(* ================================================================== *)
(** * Properties *)

(** ** The Python fragment *)

Lemma for_each_app {S X} (body : S -> X -> Py.Result S) (xs ys : list X) (s : S) :
  Py.for_each body (xs ++ ys) s = Py.bind (Py.for_each body xs s) (Py.for_each body ys).
Proof.
  revert s. induction xs as [|x xs IH]; intros s; simpl.
  - reflexivity.
  - destruct (body s x) as [e|s']; simpl; [reflexivity | apply IH].
Qed.

Lemma str_gt_asym (a b : string) : Py.str_gt a b = true -> Py.str_gt b a = false.
Proof.
  unfold Py.str_gt. rewrite (String.compare_antisym a b).
  destruct (String.compare b a); simpl; congruence.
Qed.

Lemma set_item_middle {A} (pre : list A) (x y : A) (post : list A) :
  Py.set_item (pre ++ x :: post) (List.length pre) y = pre ++ y :: post.
Proof.
  induction pre as [|h pre IH]; simpl; [reflexivity | now rewrite IH].
Qed.

(** ** The event tables of the field-of-view notebook *)

Section Tables.
Import Py Orekit FoV.

Lemma loop_lists (is_entry : LoggedEvent -> bool) (events : list LoggedEvent) :
  forall st st',
    for_each (body is_entry) events st = inr st' ->
    entry_list st' = entry_list st ++ dates (filter is_entry events)
    /\ exit_list st' = exit_list st ++ dates (filter (fun e => negb (is_entry e)) events).
Proof.
  induction events as [|event events IH]; intros st st' Hrun; simpl in *.
  - inversion Hrun; subst. now rewrite !app_nil_r.
  - unfold body at 1 in Hrun.
    destruct (is_entry event) eqn:Hevent; simpl in *.
    + apply IH in Hrun. simpl in Hrun. destruct Hrun as [He Hx].
      rewrite He, Hx. split; [now rewrite <- app_assoc | reflexivity].
    + destruct (entry_date st) as [en|]; simpl in Hrun; [|discriminate].
      apply IH in Hrun. simpl in Hrun. destruct Hrun as [He Hx].
      rewrite He, Hx. split; [reflexivity | now rewrite <- app_assoc].
Qed.

Lemma loop_lengths (is_entry : LoggedEvent -> bool) (events : list LoggedEvent) :
  forall st st',
    for_each (body is_entry) events st = inr st' ->
    List.length (exit_list st) = List.length (duration_list st) ->
    List.length (exit_list st') = List.length (duration_list st').
Proof.
  induction events as [|event events IH]; intros st st' Hrun Hlen; simpl in *.
  - now inversion Hrun; subst.
  - unfold body at 1 in Hrun.
    destruct (is_entry event); simpl in *.
    + apply IH in Hrun; simpl in *; assumption.
    + destruct (entry_date st) as [en|]; simpl in Hrun; [|discriminate].
      apply IH in Hrun; [assumption|]. simpl. rewrite !length_app. simpl. lia.
Qed.

(** C1, as stated, fails: in the field-of-view table the increasing
    event is the exit and the decreasing one the entry, so the entries
    are not the increasing events. *)
Lemma gfov_entries_are_not_increasing :
  ~ (forall events st, gfov_loop events = inr st -> increasing_enters events st).
Proof.
  intros H.
  destruct (gfov_loop [first_pass_in; first_pass_out]) as [e|st] eqn:Hrun;
    [discriminate Hrun|].
  specialize (H _ _ Hrun). destruct H as [He _].
  vm_compute in Hrun. inversion Hrun; subst. vm_compute in He. discriminate He.
Qed.

(** C1 (amended): in the elevation and the combined table an event is
    an entry exactly when it is increasing and an exit exactly when it is
    decreasing; in the field-of-view table it is the reverse, an entry
    exactly when the event is decreasing and an exit exactly when it is
    increasing. *)
Theorem directions_by_detector :
  (forall events st, ele_loop events = inr st -> increasing_enters events st)
  /\ (forall events st, comb_loop events = inr st -> increasing_enters events st)
  /\ (forall events st, gfov_loop events = inr st -> decreasing_enters events st).
Proof.
  unfold ele_loop, comb_loop, gfov_loop, increasing_enters, decreasing_enters.
  split; [|split]; intros events st Hrun; apply loop_lists in Hrun; simpl in Hrun;
    destruct Hrun as [He Hx]; rewrite He, Hx; split; try reflexivity.
  unfold gfov_is_entry. f_equal. apply filter_ext. intros e. apply negb_involutive.
Qed.

Lemma directions_by_detector_witness :
  (exists st, ele_loop ele_pass = inr st /\ increasing_enters ele_pass st)
  /\ (exists st, comb_loop ele_pass = inr st /\ increasing_enters ele_pass st)
  /\ (exists st, gfov_loop [first_pass_in; first_pass_out] = inr st
                 /\ decreasing_enters [first_pass_in; first_pass_out] st).
Proof.
  destruct directions_by_detector as (Hele & Hcomb & Hgfov).
  repeat split.
  - eexists; split; [reflexivity | apply Hele; reflexivity].
  - eexists; split; [reflexivity | apply Hcomb; reflexivity].
  - eexists; split; [reflexivity | apply Hgfov; reflexivity].
Defined.

(** The frame constructor refuses columns of different lengths. *)
Lemma unbalanced_raises (st : Cell) :
  List.length (entry_list st) <> List.length (exit_list st) ->
  DataFrame st = inl ValueError.
Proof.
  intros Hne. unfold DataFrame.
  apply Nat.eqb_neq in Hne. now rewrite Hne.
Qed.

(** On every log for which the loop ends, the table is refused exactly
    when the numbers of entries and of exits differ. *)
Lemma table_refused_iff (is_entry : LoggedEvent -> bool) (events : list LoggedEvent)
      (st : Cell) :
  for_each (body is_entry) events fresh = inr st ->
  (DataFrame st = inl ValueError
   <-> List.length (entry_list st) <> List.length (exit_list st)).
Proof.
  intros Hrun.
  pose proof (loop_lengths is_entry events fresh st Hrun eq_refl) as Hlen.
  unfold DataFrame. rewrite Hlen, Nat.eqb_refl, andb_true_r.
  destruct (Nat.eqb_spec (List.length (entry_list st)) (List.length (duration_list st)))
    as [Heq|Hne]; split; intros H; try discriminate; try reflexivity; try assumption.
  contradiction.
Qed.

(** C3 (the code departs from it): a log whose last entry has no exit
    does not give the table of the matched pairs with the trailing entry
    dropped; building the table raises [ValueError] in each of the three
    cells, and a log that starts with an exit raises [NameError]. *)
Theorem unmatched_occurrence_raises :
  df_gfov open_pass = inl ValueError
  /\ df_ele (log_of [(ele_in_1, ele_out_1)] ++ [mkEvent gfov_in_2 true]) = inl ValueError
  /\ df_comb (log_of [(gfov_in_1, gfov_out_1)] ++ [mkEvent gfov_in_2 true]) = inl ValueError
  /\ df_ele late_start = inl NameError.
Proof. repeat split; reflexivity. Qed.

(** The state of a cell after a log of complete passes. *)
Lemma loop_passes (flag : bool) (is_entry : LoggedEvent -> bool) :
  (forall d, is_entry (mkEvent d flag) = true) ->
  (forall d, is_entry (mkEvent d (negb flag)) = false) ->
  forall passes st,
    for_each (body is_entry)
             (flat_map (fun p => [mkEvent (fst p) flag; mkEvent (snd p) (negb flag)]) passes)
             st
    = inr (mkCell (entry_list st ++ map (fun p => Entry (row_of p)) passes)
                  (exit_list st ++ map (fun p => Exit (row_of p)) passes)
                  (duration_list st ++ map (fun p => Duration (row_of p)) passes)
                  (match rev passes with
                   | [] => entry_date st
                   | p :: _ => Some (fst p)
                   end)).
Proof.
  intros Hin Hout passes.
  induction passes as [|p passes IH] using rev_ind; intros st.
  - simpl. rewrite !app_nil_r. now destruct st.
  - rewrite flat_map_app, for_each_app, IH.
    cbn [flat_map app bind for_each].
    unfold body at 1. cbn [getDate]. rewrite Hin. cbn [bind ret].
    unfold body at 1. cbn [getDate entry_date entry_list exit_list duration_list].
    rewrite Hout. cbn [bind ret].
    rewrite rev_app_distr. simpl.
    rewrite !map_app, <- !app_assoc. reflexivity.
Qed.

Lemma frame_of_passes (passes : list Pass) (en : option AbsoluteDate) :
  DataFrame (mkCell (map (fun p => Entry (row_of p)) passes)
                    (map (fun p => Exit (row_of p)) passes)
                    (map (fun p => Duration (row_of p)) passes) en)
  = inr (map row_of passes).
Proof.
  unfold DataFrame. simpl. rewrite !length_map, Nat.eqb_refl. simpl.
  unfold ret. f_equal.
  induction passes as [|p passes IH]; simpl; [reflexivity | now rewrite IH].
Qed.

(** The three tables on logs of complete passes. *)
Lemma tables_of_passes (passes : list Pass) :
  df_ele (log_of passes) = inr (map row_of passes)
  /\ df_comb (log_of passes) = inr (map row_of passes)
  /\ df_gfov (gfov_log_of passes) = inr (map row_of passes).
Proof.
  unfold df_ele, df_comb, df_gfov, ele_loop, comb_loop, gfov_loop, log_of, gfov_log_of.
  split; [|split].
  - rewrite (loop_passes true ele_is_entry) by reflexivity. apply frame_of_passes.
  - rewrite (loop_passes true comb_is_entry) by reflexivity. apply frame_of_passes.
  - rewrite (loop_passes false gfov_is_entry) by reflexivity. apply frame_of_passes.
Qed.

End Tables.

(** ** The entry/exit table of the latitude/longitude notebook *)

Section Pairing.
Import Py LatLon.

Lemma adjust_middle (pre : list Row) (r : Row) (post : list Row) :
  adjust (map ordered pre ++ r :: post) (List.length pre)
  = map ordered pre ++ ordered r :: post.
Proof.
  unfold adjust.
  rewrite nth_error_app2 by (rewrite length_map; lia).
  rewrite length_map, Nat.sub_diag. simpl.
  unfold ordered. destruct (str_gt (Entries r) (Exits r)); [|reflexivity].
  rewrite <- (length_map ordered pre). apply set_item_middle.
Qed.

Lemma adjustment_from (post : list Row) :
  forall pre,
    fold_left adjust (seq (List.length pre) (List.length post)) (map ordered pre ++ post)
    = map ordered (pre ++ post).
Proof.
  induction post as [|r post IH]; intros pre.
  - simpl. now rewrite !app_nil_r.
  - cbn [List.length seq fold_left]. rewrite adjust_middle.
    specialize (IH (pre ++ [r])).
    rewrite length_app, Nat.add_1_r, map_app, <- !app_assoc in IH.
    exact IH.
Qed.

(** The adjustment loop leaves every row ordered and touches nothing
    else. *)
Lemma order_adjustment_map (df : list Row) : order_adjustment df = map ordered df.
Proof. exact (adjustment_from df []). Qed.

Lemma concat_firstn (giris cikis : list string) :
  concat (firstn (min_length giris cikis) giris) (firstn (min_length giris cikis) cikis)
  = concat giris cikis.
Proof.
  unfold concat, min_length. f_equal.
  rewrite <- combine_firstn, <- (length_combine giris cikis).
  apply firstn_all.
Qed.

Lemma table_map (giris cikis : list string) :
  table giris cikis = map ordered (concat giris cikis).
Proof. unfold table. now rewrite order_adjustment_map, concat_firstn. Qed.

Lemma table_length (giris cikis : list string) :
  List.length (table giris cikis) = min_length giris cikis.
Proof.
  rewrite table_map. unfold concat, min_length.
  now rewrite !length_map, length_combine.
Qed.

Lemma nth_error_concat (giris cikis : list string) :
  forall i e x,
    nth_error giris i = Some e -> nth_error cikis i = Some x ->
    nth_error (concat giris cikis) i = Some (mkRow e x).
Proof.
  revert cikis. induction giris as [|g giris IH]; intros cikis i e x Hg Hc.
  - destruct i; discriminate.
  - destruct cikis as [|c cikis]; [destruct i; discriminate|].
    destruct i as [|i]; simpl in *.
    + now inversion Hg; inversion Hc.
    + now apply IH.
Qed.

(** Row [i] of the table is made of entry [i] and exit [i] of the two
    logs, in the order the comparison of the date strings gives. *)
Lemma table_row (giris cikis : list string) (i : nat) (e x : string) :
  nth_error giris i = Some e -> nth_error cikis i = Some x ->
  nth_error (table giris cikis) i
  = Some (if str_gt e x then mkRow x e else mkRow e x).
Proof.
  intros Hg Hc. rewrite table_map, nth_error_map.
  now rewrite (nth_error_concat _ _ _ _ _ Hg Hc).
Qed.

Lemma ordered_leb (r : Row) : String.leb (Entries (ordered r)) (Exits (ordered r)) = true.
Proof.
  unfold ordered. destruct (str_gt (Entries r) (Exits r)) eqn:Hgt; simpl.
  - apply str_gt_asym in Hgt. unfold str_gt in Hgt. unfold String.leb.
    destruct (String.compare (Exits r) (Entries r)); congruence.
  - unfold str_gt in Hgt. unfold String.leb.
    destruct (String.compare (Entries r) (Exits r)); congruence.
Qed.

Lemma table_ordered (giris cikis : list string) :
  Forall (fun r => String.leb (Entries r) (Exits r) = true) (table giris cikis).
Proof.
  rewrite table_map. apply Forall_forall. intros r Hin.
  apply in_map_iff in Hin. destruct Hin as [r0 [<- _]]. apply ordered_leb.
Qed.

(** When the order of the printed dates is the order in time, row [i] of
    the table holds the earlier of entry [i] and exit [i] as its entry and
    the later as its exit. *)
Lemma table_row_chronological (entry_events exit_events : list Orekit.LoggedEvent)
      (i : nat) (e x : Orekit.LoggedEvent) :
  nth_error entry_events i = Some e -> nth_error exit_events i = Some x ->
  print_order_agrees (Orekit.getDate e) (Orekit.getDate x) ->
  exists d1 d2,
    nth_error (lat_df entry_events exit_events) i
    = Some (mkRow (Orekit.iso d1) (Orekit.iso d2))
    /\ (Orekit.offset d1 <= Orekit.offset d2)%Q
    /\ ((d1 = Orekit.getDate e /\ d2 = Orekit.getDate x)
        \/ (d1 = Orekit.getDate x /\ d2 = Orekit.getDate e)).
Proof.
  intros He Hx Hagree. unfold lat_df.
  rewrite (table_row (logged entry_events) (logged exit_events) i
                     (Orekit.iso (Orekit.getDate e)) (Orekit.iso (Orekit.getDate x))).
  - destruct (str_gt (Orekit.iso (Orekit.getDate e)) (Orekit.iso (Orekit.getDate x)))
      eqn:Hgt.
    + exists (Orekit.getDate x), (Orekit.getDate e). split; [reflexivity|]. split.
      * apply Qlt_le_weak. now apply Hagree.
      * now right.
    + exists (Orekit.getDate e), (Orekit.getDate x). split; [reflexivity|]. split.
      * apply Qnot_lt_le. intros Hlt. apply Hagree in Hlt. congruence.
      * now left.
  - unfold logged. now rewrite nth_error_map, He.
  - unfold logged. now rewrite nth_error_map, Hx.
Qed.



(** C6, as stated, fails: the table does not determine how many
    occurrences were dropped, so no count reaches the caller. *)
Lemma dropped_count_is_not_reported :
  ~ (exists report : list Row -> nat,
        forall giris cikis, report (table giris cikis) = dropped giris cikis).
Proof.
  intros [report H].
  pose proof (H ["1"%string] ["2"%string]) as H0.
  pose proof (H ["1"%string; "3"%string] ["2"%string]) as H1.
  vm_compute in H0, H1. congruence.
Qed.

(** C6 (amended): leftover entries or exits are dropped without an error
    and without a count: the table is the table of the two logs cut to
    their common length, it has that many rows, and the number dropped
    is what the caller's own logs exceed the table by. *)
Theorem leftovers_dropped_silently (giris cikis : list string) :
  table giris cikis
  = table (firstn (min_length giris cikis) giris) (firstn (min_length giris cikis) cikis)
  /\ List.length (table giris cikis) = min_length giris cikis
  /\ (dropped giris cikis
      = List.length giris + List.length cikis - 2 * List.length (table giris cikis))%nat.
Proof.
  split; [|split].
  - rewrite !table_map, <- (concat_firstn giris cikis). reflexivity.
  - apply table_length.
  - rewrite table_length. unfold dropped, min_length. lia.
Qed.

End Pairing.

(** ** Durations of the field-of-view tables *)

Section Durations.
Import Py Orekit FoV.
Local Open Scope Q_scope.

Lemma minutes_nonneg (a b : Q) : a <= b -> 0 <= (b - a) / 60.
Proof. intros H. apply Qle_shift_div_l; Lqa.lra. Qed.

Lemma loop_durations (is_entry : LoggedEvent -> bool) (events : list LoggedEvent) :
  forall st st',
    StronglySorted (fun a b => offset (getDate a) <= offset (getDate b)) events ->
    (forall en, entry_date st = Some en ->
                Forall (fun e => offset en <= offset (getDate e)) events) ->
    Forall (fun d => 0 <= d) (duration_list st) ->
    for_each (body is_entry) events st = inr st' ->
    Forall (fun d => 0 <= d) (duration_list st').
Proof.
  induction events as [|event events IH]; intros st st' Hsorted Hentry Hdur Hrun.
  - simpl in Hrun. now inversion Hrun; subst.
  - apply StronglySorted_inv in Hsorted. destruct Hsorted as [Hsorted Hhead].
    simpl in Hrun. unfold body at 1 in Hrun.
    destruct (is_entry event); simpl in Hrun.
    + apply (IH _ _ Hsorted) in Hrun; [assumption| |assumption].
      simpl. intros en Hen. inversion Hen; subst. exact Hhead.
    + destruct (entry_date st) as [en|] eqn:Hen; simpl in Hrun; [|discriminate].
      specialize (Hentry en eq_refl).
      apply Forall_cons_iff in Hentry. destruct Hentry as [Hfirst Hrest].
      apply (IH _ _ Hsorted) in Hrun; [assumption| |].
      * simpl. intros en' Hen'. inversion Hen'; subst. exact Hrest.
      * simpl. apply Forall_app. split; [assumption|].
        constructor; [|constructor]. unfold durationFrom. now apply minutes_nonneg.
Qed.

Lemma chronological_strongly (events : list LoggedEvent) :
  chronological events ->
  StronglySorted (fun a b => offset (getDate a) <= offset (getDate b)) events.
Proof.
  apply Sorted_StronglySorted. intros a b c Hab Hbc. eapply Qle_trans; eassumption.
Qed.

Lemma frame_durations (P : Q -> Prop) (st : Cell) (rows : list Row) :
  DataFrame st = inr rows ->
  Forall P (duration_list st) ->
  Forall (fun r => P (Duration r)) rows.
Proof.
  unfold DataFrame.
  destruct ((List.length (entry_list st) =? List.length (exit_list st))%nat
            && (List.length (exit_list st) =? List.length (duration_list st))%nat);
    [|discriminate].
  intros Hrows Hdur. inversion Hrows; subst. clear Hrows.
  generalize (combine (entry_list st) (exit_list st)) as pairs.
  induction Hdur as [|d ds Hd Hds IH]; intros pairs.
  - destruct pairs; constructor.
  - destruct pairs as [|p pairs]; simpl; constructor; [assumption | apply IH].
Qed.

Lemma table_durations (is_entry : LoggedEvent -> bool) (events : list LoggedEvent)
      (rows : list Row) :
  chronological events ->
  bind (for_each (body is_entry) events fresh) DataFrame = inr rows ->
  Forall (fun r => 0 <= Duration r) rows.
Proof.
  intros Hchrono Hrows.
  destruct (for_each (body is_entry) events fresh) as [e|st] eqn:Hrun;
    simpl in Hrows; [discriminate|].
  apply (@frame_durations (fun d => 0 <= d) st rows Hrows).
  apply (@loop_durations is_entry events fresh st);
    [now apply chronological_strongly | discriminate | constructor | exact Hrun].
Qed.

(** C5, as stated, fails on the number reported: for an entry at 0 s and
    an exit at 120 s the combined table shows the duration 2 (minutes),
    which is not exit - entry = 120. *)
Lemma duration_is_in_minutes :
  exists rows,
    df_comb (log_of [(mkDate "2024-09-21T13:10:00Z" 0, mkDate "2024-09-21T13:12:00Z" 120)])
    = inr rows
    /\ Forall (fun r => Duration r == 2) rows
    /\ ~ Forall (fun r => Duration r == 120 - 0) rows.
Proof.
  eexists. split; [reflexivity|]. split.
  - constructor; [reflexivity | constructor].
  - intros H. inversion H as [|r rs Hr _]; subst. vm_compute in Hr. discriminate Hr.
Qed.

Lemma passes_in_order (flag : bool) (passes : list Pass) :
  Sorted (fun a b => offset (getDate a) <= offset (getDate b))
         (flat_map (fun p => [mkEvent (fst p) flag; mkEvent (snd p) (negb flag)]) passes) ->
  Forall (fun p => offset (fst p) <= offset (snd p)) passes.
Proof.
  induction passes as [|p passes IH]; intros Hs; [constructor|].
  cbn [flat_map app] in Hs.
  apply Sorted_inv in Hs. destruct Hs as [Hs Hhd].
  apply HdRel_inv in Hhd. cbn [getDate] in Hhd.
  apply Sorted_inv in Hs. destruct Hs as [Hs _].
  constructor; [exact Hhd | now apply IH].
Qed.

Lemma windows_in_order (flag : bool) (passes : list Pass) :
  Sorted (fun a b => offset (getDate a) <= offset (getDate b))
         (flat_map (fun p => [mkEvent (fst p) flag; mkEvent (snd p) (negb flag)]) passes) ->
  Forall (fun p => offset (fst p) <= offset (snd p)
                   /\ 0 <= (offset (snd p) - offset (fst p)) / 60) passes.
Proof.
  intros Hs. apply passes_in_order in Hs.
  eapply Forall_impl; [|exact Hs]. intros p Hp. split; [exact Hp | now apply minutes_nonneg].
Qed.

(** C5 (amended): for a chronologically ordered log of complete passes,
    the elevation, combined and field-of-view tables hold one window per
    pass, with its entry, its exit and the duration
    (exit - entry) / 60, in minutes; the exit of every window is not
    before its entry and its duration is non-negative; and the durations
    reported for any chronologically ordered log are non-negative. *)
Theorem windows_and_durations :
  (forall passes,
      chronological (log_of passes) ->
      let rows := map (fun p => mkRow (date_str (fst p)) (date_str (snd p))
                                      ((offset (snd p) - offset (fst p)) / 60)) passes in
      df_ele (log_of passes) = inr rows
      /\ df_comb (log_of passes) = inr rows
      /\ Forall (fun p => offset (fst p) <= offset (snd p)
                          /\ 0 <= (offset (snd p) - offset (fst p)) / 60) passes)
  /\ (forall passes,
         chronological (gfov_log_of passes) ->
         df_gfov (gfov_log_of passes)
         = inr (map (fun p => mkRow (date_str (fst p)) (date_str (snd p))
                                    ((offset (snd p) - offset (fst p)) / 60)) passes)
         /\ Forall (fun p => offset (fst p) <= offset (snd p)
                             /\ 0 <= (offset (snd p) - offset (fst p)) / 60) passes)
  /\ (forall events rows,
         chronological events ->
         df_gfov events = inr rows \/ df_ele events = inr rows \/ df_comb events = inr rows ->
         Forall (fun r => 0 <= Duration r) rows).
Proof.
  split; [|split].
  - intros passes Hchrono rows.
    destruct (tables_of_passes passes) as (Hele & Hcomb & _).
    split; [exact Hele | split; [exact Hcomb | exact (windows_in_order true passes Hchrono)]].
  - intros passes Hchrono.
    destruct (tables_of_passes passes) as (_ & _ & Hgfov).
    split; [exact Hgfov | exact (windows_in_order false passes Hchrono)].
  - intros events rows Hchrono [H|[H|H]];
      eapply table_durations; try eassumption; exact H.
Qed.

Lemma windows_and_durations_witness :
  df_gfov (gfov_log_of [(gfov_in_1, gfov_out_1); (gfov_in_2, gfov_out_2)])
  = inr (map (fun p => mkRow (date_str (fst p)) (date_str (snd p))
                             ((offset (snd p) - offset (fst p)) / 60))
             [(gfov_in_1, gfov_out_1); (gfov_in_2, gfov_out_2)])
  /\ Forall (fun p => offset (fst p) <= offset (snd p)
                      /\ 0 <= (offset (snd p) - offset (fst p)) / 60)
            [(gfov_in_1, gfov_out_1); (gfov_in_2, gfov_out_2)].
Proof.
  apply (proj1 (proj2 windows_and_durations)
               [(gfov_in_1, gfov_out_1); (gfov_in_2, gfov_out_2)]).
  repeat constructor; vm_compute; discriminate.
Defined.

End Durations.

(** ** The propagation loop *)

Section PropagationFacts.
Import Orekit FoV.
Local Open Scope Q_scope.

Lemma Qfloor_unique (x : Q) (z : Z) :
  inject_Z z <= x -> x < inject_Z (z + 1) -> Qfloor x = z.
Proof.
  intros Hle Hlt.
  assert (H1 : (z <= Qfloor x)%Z).
  { rewrite <- (Qfloor_Z z). now apply Qfloor_resp_le. }
  assert (H2 : (Qfloor x < z + 1)%Z).
  { rewrite Zlt_Qlt. eapply Qle_lt_trans; [apply Qfloor_le | exact Hlt]. }
  lia.
Qed.

Lemma Qfloor_pred (x : Q) : Qfloor (x - 1) = (Qfloor x - 1)%Z.
Proof.
  apply Qfloor_unique.
  - pose proof (Qfloor_le x) as H.
    unfold Z.sub. rewrite inject_Z_plus, inject_Z_opp. change (inject_Z 1) with 1.
    Lqa.lra.
  - pose proof (Qlt_floor x) as H.
    replace (Qfloor x - 1 + 1)%Z with (Qfloor x) by lia.
    rewrite inject_Z_plus in H. change (inject_Z 1) with 1 in H. Lqa.lra.
Qed.

Lemma span_over_step (dt initialDate finalDate : Q) :
  0 < dt ->
  (finalDate - (initialDate + dt)) / dt == (finalDate - initialDate) / dt - 1.
Proof. intros Hdt. field. intros H. rewrite H in Hdt. discriminate Hdt. Qed.

Lemma iterations_step (dt initialDate finalDate : Q) :
  0 < dt ->
  Qle_bool initialDate finalDate = true ->
  iterations dt initialDate finalDate = S (iterations dt (initialDate + dt) finalDate).
Proof.
  intros Hdt Hle. unfold iterations. rewrite Hle.
  apply Qle_bool_iff in Hle.
  assert (Hx : 0 <= (finalDate - initialDate) / dt).
  { apply Qle_shift_div_l; [assumption | Lqa.lra]. }
  assert (Hz : (0 <= Qfloor ((finalDate - initialDate) / dt))%Z).
  { change 0%Z with (Qfloor 0). now apply Qfloor_resp_le. }
  destruct (Qle_bool (initialDate + dt) finalDate) eqn:Hnext.
  - rewrite (Qfloor_comp _ _ (span_over_step dt initialDate finalDate Hdt)), Qfloor_pred.
    lia.
  - assert (Hlt : finalDate < initialDate + dt).
    { apply Qnot_le_lt. intros H. apply Qle_bool_iff in H. congruence. }
    assert (H0 : Qfloor ((finalDate - initialDate) / dt) = 0%Z).
    { apply Qfloor_unique; [exact Hx|].
      change (inject_Z (0 + 1)) with 1. apply Qlt_shift_div_r; [assumption | Lqa.lra]. }
    rewrite H0. reflexivity.
Qed.

Lemma iterations_end (dt initialDate finalDate : Q) :
  Qle_bool initialDate finalDate = false -> iterations dt initialDate finalDate = O.
Proof. intros H. unfold iterations. now rewrite H. Qed.

Section Library.
Variables World Position : Type.
Variable addEventDetector : World -> Detector -> World.
Variable getPVCoordinates : World -> Q -> World * Position.

(** With a positive step the loop ends, after [iterations] queries at
    the dates [initialDate], [initialDate + dt], ... *)
Lemma propagation_queries (dt finalDate : Q) :
  0 < dt ->
  forall fuel w initialDate pos,
    (iterations dt initialDate finalDate <= fuel)%nat ->
    propagation getPVCoordinates fuel dt w initialDate finalDate pos
    = Some (fst (queries getPVCoordinates w
                         (shifted (iterations dt initialDate finalDate) initialDate dt)),
            pos ++ snd (queries getPVCoordinates w
                                (shifted (iterations dt initialDate finalDate) initialDate dt))).
Proof.
  intros Hdt. induction fuel as [|fuel IH]; intros w initialDate pos Hfuel.
  - simpl. destruct (Qle_bool initialDate finalDate) eqn:Hle.
    + rewrite (iterations_step _ _ _ Hdt Hle) in Hfuel. lia.
    + rewrite (iterations_end _ _ _ Hle). simpl. now rewrite app_nil_r.
  - simpl. destruct (Qle_bool initialDate finalDate) eqn:Hle.
    + rewrite (iterations_step _ _ _ Hdt Hle) in *. simpl.
      destruct (getPVCoordinates w initialDate) as [w' p].
      rewrite IH by lia.
      destruct (queries getPVCoordinates w'
                        (shifted (iterations dt (initialDate + dt) finalDate)
                                 (initialDate + dt) dt)) as [w'' ps].
      simpl. now rewrite <- app_assoc.
    + rewrite (iterations_end _ _ _ Hle). simpl. now rewrite app_nil_r.
Qed.

(** When the initial date is not after the final date, the state is
    queried. *)
Lemma propagation_samples (dt finalDate : Q) (fuel : nat) (w : World)
      (initialDate : Q) :
  0 < dt ->
  Qle_bool initialDate finalDate = true ->
  (iterations dt initialDate finalDate <= fuel)%nat ->
  exists w_end p ps,
    propagation getPVCoordinates fuel dt w initialDate finalDate [] = Some (w_end, p :: ps).
Proof.
  intros Hdt Hle Hfuel.
  rewrite (propagation_queries dt finalDate Hdt _ _ _ _ Hfuel).
  rewrite (iterations_step _ _ _ Hdt Hle).
  generalize (iterations dt (initialDate + dt) finalDate) as k. intros k.
  cbn [shifted queries].
  destruct (getPVCoordinates w initialDate) as [w' p].
  destruct (queries getPVCoordinates w' (shifted k (initialDate + dt) dt)) as [w'' ps].
  now exists w'', p, ps.
Qed.

(** A run of the loop is a run over the relation of the library. *)
(** C4 (amended): a step larger than a detector's maximum-check
    interval is accepted. Whatever detectors were registered and
    whatever intervals they declare, the loop with a positive step
    queries the state at [initialDate], [initialDate + dt], ... up to
    [finalDate], at least once when [initialDate <= finalDate]. *)
Theorem step_is_not_checked (w0 : World) (detectors : list Detector)
        (dt initialDate finalDate : Q) (fuel : nat) :
  0 < dt ->
  (iterations dt initialDate finalDate <= fuel)%nat ->
  notebook addEventDetector getPVCoordinates fuel w0 detectors dt initialDate finalDate
  = Some (queries getPVCoordinates (fold_left addEventDetector detectors w0)
                  (shifted (iterations dt initialDate finalDate) initialDate dt))
  /\ (initialDate <= finalDate -> (1 <= iterations dt initialDate finalDate)%nat).
Proof.
  intros Hdt Hfuel. split.
  - unfold notebook. rewrite propagation_queries by assumption. simpl.
    now destruct (queries getPVCoordinates _ _).
  - intros Hle. apply Qle_bool_iff in Hle.
    rewrite (iterations_step _ _ _ Hdt Hle). lia.
Qed.
End Library.

(** C4, as stated, fails: with the field-of-view detector at a
    maximum-check interval of 5 s and the loop stepping by 10 s over the
    72 hours of the notebook, nothing is rejected and the state is
    sampled. *)
Lemma oversized_step_is_accepted :
  ~ (forall (fuel : nat) (detectors : list Detector) (dt initialDate finalDate : Q)
            (w : Recorder) (pos : list Q),
        Exists (fun d => maxCheck d < dt) detectors ->
        notebook record_detector record_query fuel ([], []) detectors dt
                 initialDate finalDate = Some (w, pos) ->
        pos = []).
Proof.
  intros H.
  assert (Hdt : 0 < shift) by reflexivity.
  assert (Hle : Qle_bool 0 span = true) by reflexivity.
  destruct (@propagation_samples Recorder Q record_query shift span
              (iterations shift 0 span)
              (fold_left record_detector [GFoVDetector library_detector] ([], []))
              0 Hdt Hle (le_n _)) as (w_end & p & ps & Hrun).
  apply (H (iterations shift 0 span) [GFoVDetector library_detector]) in Hrun;
    [discriminate Hrun|].
  constructor. reflexivity.
Qed.

Lemma step_is_not_checked_witness :
  notebook record_detector record_query 3 ([], []) [GFoVDetector library_detector]
           shift 0 20
  = Some (([GFoVDetector library_detector],
           [mkEvent (mkDate "query" 0) true;
            mkEvent (mkDate "query" (0 + shift)) true;
            mkEvent (mkDate "query" (0 + shift + shift)) true]),
          [0; 0 + shift; 0 + shift + shift]).
Proof.
  apply (proj1 (@step_is_not_checked Recorder Q record_detector record_query ([], [])
                  [GFoVDetector library_detector] shift 0 20 3 eq_refl (le_n 3))).
Defined.

End PropagationFacts.

(** ** Local sidereal time *)

Section SiderealFacts.
Import Stdlib.Floats.Floats.
Import Py PyFloat SiderealTime.
#[local] Set Warnings "-inexact-float".
Local Open Scope float_scope.

(** The run stored in the notebook: 2024-01-01 at 0h, longitude 35. *)
Lemma teta_stored_output : teta 2024 1 1 0 0 0 35 = inr 135.15262665907903.
Proof. vm_compute. reflexivity. Qed.

(** C10 (the code departs from it): for 2000-01-01 at 0h and the
    longitude -99.9677947170432 the cell returns 360.0, which is not in
    [0, 360): the sum of the Greenwich sidereal time and the longitude is
    -2^-46, its remainder is negative, and the 360 that [%] then adds
    is rounded to 360.0. *)
Theorem teta_reaches_360 :
  teta_g 2000 1 1 0 0 0 = inr 99.96779471704319
  /\ 99.96779471704319 + -99.9677947170432 = -0x1p-46
  /\ fmod (-0x1p-46) 360 = -0x1p-46
  /\ teta 2000 1 1 0 0 0 (-99.9677947170432) = inr 360.
Proof. repeat split; vm_compute; reflexivity. Qed.

End SiderealFacts.

(** ** Cartesian to RA/Dec and back *)

Section RaDecFacts.
Import RaDec.
Local Open Scope R_scope.


Lemma norm_factor (x y : R) :
  x <> 0 -> sqrt (x ^ 2 + y ^ 2) = Rabs x * sqrt (1 + (y / x)²).
Proof.
  intros Hx.
  rewrite <- sqrt_Rsqr_abs, <- sqrt_mult.
  - f_equal. unfold Rsqr. field. exact Hx.
  - apply Rle_0_sqr.
  - pose proof (Rle_0_sqr (y / x)). lra.
Qed.

Lemma root_pos (t : R) : 0 < sqrt (1 + t²).
Proof. apply sqrt_lt_R0. pose proof (Rle_0_sqr t). lra. Qed.

Lemma cos_sin_shift (a : R) :
  cos (a + PI) = - cos a /\ sin (a + PI) = - sin a
  /\ cos (a - PI) = - cos a /\ sin (a - PI) = - sin a.
Proof.
  rewrite cos_plus, sin_plus, cos_minus, sin_minus, cos_PI, sin_PI.
  repeat split; ring.
Qed.

Lemma atan2_direction (y x : R) :
  x <> 0 \/ y <> 0 ->
  cos (atan2 y x) = x / sqrt (x ^ 2 + y ^ 2)
  /\ sin (atan2 y x) = y / sqrt (x ^ 2 + y ^ 2).
Proof.
  intros Hxy. unfold atan2.
  destruct (Rlt_dec 0 x) as [Hpos|Hnpos].
  - rewrite cos_atan, sin_atan, norm_factor by lra.
    rewrite Rabs_right by lra.
    pose proof (root_pos (y / x)) as Hr.
    split; field; lra.
  - destruct (Rlt_dec x 0) as [Hneg|Hnneg].
    + pose proof (root_pos (y / x)) as Hr.
      pose proof (cos_sin_shift (atan (y / x))) as (Hc1 & Hs1 & Hc2 & Hs2).
      rewrite norm_factor by lra. rewrite Rabs_left by lra.
      destruct (Rle_dec 0 y).
      * rewrite Hc1, Hs1, cos_atan, sin_atan. split; field; lra.
      * rewrite Hc2, Hs2, cos_atan, sin_atan. split; field; lra.
    + assert (Hx : x = 0) by lra. subst x.
      assert (Hy : y <> 0) by (destruct Hxy; [lra | assumption]).
      replace (0 ^ 2 + y ^ 2) with (y²) by (unfold Rsqr; ring).
      rewrite sqrt_Rsqr_abs.
      destruct (Rlt_dec 0 y) as [Hyp|Hynp].
      * rewrite cos_PI2, sin_PI2, Rabs_right by lra. split; field; lra.
      * destruct (Rlt_dec y 0) as [Hyn|]; [|lra].
        rewrite cos_neg, sin_neg, cos_PI2, sin_PI2, Rabs_left by lra. split; field; lra.
Qed.

Lemma radians_degrees (a : R) : radians (degrees a) = a.
Proof. unfold radians, degrees. field. apply PI_neq0. Qed.

Lemma radians_turn (a : R) : radians (degrees a + 360) = a + 2 * PI.
Proof. unfold radians, degrees. field. apply PI_neq0. Qed.

Lemma full_turn (a : R) : cos (a + 2 * PI) = cos a /\ sin (a + 2 * PI) = sin a.
Proof. rewrite cos_plus, sin_plus, cos_2PI, sin_2PI. split; ring. Qed.

(** C9: for every real position with a positive norm, the check cell
    rebuilds the position from the right ascension and the declination
    that the conversion returns. *)
Theorem round_trip (x y z : R) :
  0 < sqrt (x ^ 2 + y ^ 2 + z ^ 2) ->
  check x y z = (x, y, z).
Proof.
  intros HR. unfold check, cartesian_to_radec.
  set (rho := sqrt (x ^ 2 + y ^ 2)).
  set (R := sqrt (x ^ 2 + y ^ 2 + z ^ 2)) in *.
  assert (Hsum : 0 <= x ^ 2 + y ^ 2) by (pose proof (pow2_ge_0 x); pose proof (pow2_ge_0 y); lra).
  assert (Hrho : 0 <= rho) by apply sqrt_pos.
  assert (Hrho2 : rho ^ 2 = x ^ 2 + y ^ 2).
  { unfold rho. rewrite <- Rsqr_pow2. apply Rsqr_sqrt. exact Hsum. }
  assert (Hnorm : sqrt (rho ^ 2 + z ^ 2) = R) by (unfold R; now rewrite Hrho2).
  assert (Hdec : rho <> 0 \/ z <> 0).
  { destruct (Req_dec z 0) as [Hz|Hz]; [left | now right].
    intros H0. unfold R in HR. rewrite <- Hrho2, H0, Hz in HR.
    replace (0 ^ 2 + 0 ^ 2) with 0 in HR by ring. rewrite sqrt_0 in HR. lra. }
  destruct (atan2_direction z rho Hdec) as [Hcd Hsd]. rewrite Hnorm in Hcd, Hsd.
  rewrite radians_degrees.
  assert (Hra : cos (radians (if Rlt_dec (degrees (atan2 y x)) 0
                              then degrees (atan2 y x) + 360 else degrees (atan2 y x)))
                = cos (atan2 y x)
                /\ sin (radians (if Rlt_dec (degrees (atan2 y x)) 0
                                 then degrees (atan2 y x) + 360 else degrees (atan2 y x)))
                   = sin (atan2 y x)).
  { destruct (Rlt_dec (degrees (atan2 y x)) 0).
    - rewrite radians_turn. apply full_turn.
    - now rewrite radians_degrees. }
  destruct Hra as [Hcr Hsr]. rewrite Hcr, Hsr, Hcd, Hsd.
  destruct (Req_dec rho 0) as [H0|Hpos].
  - assert (Hx : x = 0).
    { rewrite H0 in Hrho2. pose proof (pow2_ge_0 x). pose proof (pow2_ge_0 y).
      assert (Hx2 : x ^ 2 = 0) by (replace (0 ^ 2) with 0 in Hrho2 by ring; lra).
      replace (x ^ 2) with (x * x) in Hx2 by ring.
      apply Rmult_integral in Hx2. tauto. }
    assert (Hy : y = 0).
    { rewrite H0 in Hrho2. pose proof (pow2_ge_0 x). pose proof (pow2_ge_0 y).
      assert (Hy2 : y ^ 2 = 0) by (replace (0 ^ 2) with 0 in Hrho2 by ring; lra).
      replace (y ^ 2) with (y * y) in Hy2 by ring.
      apply Rmult_integral in Hy2. tauto. }
    rewrite H0, Hx, Hy. f_equal; [f_equal|]; field; lra.
  - destruct (atan2_direction y x) as [Hc Hs].
    { destruct (Req_dec x 0) as [Hx|Hx]; [right | now left].
      intros Hy. apply Hpos. unfold rho. rewrite Hx, Hy.
      replace (0 ^ 2 + 0 ^ 2) with 0 by ring. apply sqrt_0. }
    rewrite Hc, Hs. fold rho. f_equal; [f_equal|]; field; lra.
Qed.

Lemma round_trip_witness : check 1000 2000 3000 = (1000, 2000, 3000).
Proof.
  apply round_trip. apply sqrt_lt_R0. lra.
Defined.

End RaDecFacts.

(** ** The event detection engine *)

Section EngineFacts.
Import Scanner.
Local Open Scope Q_scope.

(** The scan reads the indicator only through its values. *)
Lemma refine_ext (cfg : ScanConfiguration) (v1 v2 : Q -> option Q) :
  (forall t, v1 t = v2 t) ->
  forall n lo hi prev, refine cfg v1 n lo hi prev = refine cfg v2 n lo hi prev.
Proof.
  intros Hv. induction n as [|n IH]; intros lo hi prev; simpl; rewrite Hv.
  - reflexivity.
  - destruct (v2 ((lo + hi) / 2)) as [v|]; [|reflexivity].
    now rewrite !IH.
Qed.

Lemma detect_ext (cfg : ScanConfiguration) (src : string) (v1 v2 : Q -> option Q) :
  (forall t, v1 t = v2 t) ->
  forall prevTime prevValue currTime currValue,
    detect cfg src v1 prevTime prevValue currTime currValue
    = detect cfg src v2 prevTime prevValue currTime currValue.
Proof.
  intros Hv prevTime prevValue currTime currValue. unfold detect, at_zero.
  now rewrite Hv, (refine_ext cfg v1 v2 Hv).
Qed.

Lemma scan_loop_ext (cfg : ScanConfiguration) (src : string) (v1 v2 : Q -> option Q) :
  (forall t, v1 t = v2 t) ->
  forall n prevTime prevValue log,
    scan_loop cfg src v1 n prevTime prevValue log
    = scan_loop cfg src v2 n prevTime prevValue log.
Proof.
  intros Hv. induction n as [|n IH]; intros prevTime prevValue log; simpl.
  - reflexivity.
  - rewrite Hv. destruct (v2 (prevTime + stepBudget cfg)) as [currValue|]; [|reflexivity].
    rewrite (detect_ext cfg src v1 v2 Hv).
    destruct (detect cfg src v2 prevTime prevValue (prevTime + stepBudget cfg) currValue);
      try reflexivity; [apply IH | now rewrite IH].
Qed.

Lemma scan_values_ext (cfg : ScanConfiguration) (src : string) (v1 v2 : Q -> option Q) :
  (forall t, v1 t = v2 t) -> scan_values cfg src v1 = scan_values cfg src v2.
Proof.
  intros Hv. unfold scan_values, at_zero. rewrite !Hv.
  destruct (v2 (startTime cfg)) as [startValue|]; [|reflexivity].
  destruct (Qeq_bool startValue 0).
  - destruct (v2 (startTime cfg + stepBudget cfg)); [|reflexivity].
    now rewrite (scan_loop_ext cfg src v1 v2 Hv).
  - apply scan_loop_ext, Hv.
Qed.

Lemma Qopp_opp (q : Q) : - - q = q.
Proof. destruct q as [n d]. unfold Qopp. simpl. now rewrite Z.opp_involutive. Qed.

Lemma Qabs_opp_eq (q : Q) : Qabs (- q) = Qabs q.
Proof. destruct q as [n d]. unfold Qabs, Qopp. simpl. now rewrite Z.abs_opp. Qed.

Lemma sign_opp (q : Q) : (- q ?= 0) = CompOpp (q ?= 0).
Proof. destruct q as [[|p|p] d]; reflexivity. Qed.

Lemma same_sign_opp (a b : Q) : same_sign (- a) (- b) = same_sign a b.
Proof.
  unfold same_sign. rewrite !sign_opp.
  destruct (a ?= 0), (b ?= 0); reflexivity.
Qed.

Lemma crossing_opp (p c : Q) : crossing (- p) (- c) = option_map reverse (crossing p c).
Proof.
  unfold crossing. rewrite !sign_opp.
  destruct (p ?= 0), (c ?= 0); reflexivity.
Qed.

Lemma Qeq_bool_opp (q : Q) : Qeq_bool (- q) 0 = Qeq_bool q 0.
Proof. destruct q as [[|p|p] d]; reflexivity. Qed.

Lemma positive_opp (q : Q) :
  ~ q == 0 -> Qlt_bool 0 (- q) = negb (Qlt_bool 0 q).
Proof.
  destruct q as [[|p|p] d]; intros Hq; try reflexivity.
  exfalso. apply Hq. reflexivity.
Qed.

Lemma refine_negated (cfg : ScanConfiguration) (value : Q -> option Q) :
  forall n lo hi prev,
    refine cfg (negated value) n lo hi (- prev) = refine cfg value n lo hi prev.
Proof.
  induction n as [|n IH]; intros lo hi prev; cbn [refine]; unfold negated at 1;
    destruct (value ((lo + hi) / 2)) as [v|]; cbn [option_map]; try reflexivity;
    rewrite Qabs_opp_eq; try reflexivity.
  now rewrite same_sign_opp, !IH.
Qed.

Lemma at_zero_negated (cfg : ScanConfiguration) (src : string) (value : Q -> option Q) (t : Q) :
  mirrored_detection value (at_zero cfg src (negated value) t) (at_zero cfg src value t).
Proof.
  unfold at_zero, negated.
  destruct (value (t + stepBudget cfg)) as [following|] eqn:Hf; simpl; [|exact I].
  repeat split. simpl. intros Hnz.
  rewrite (positive_opp following (Hnz _ _ Hf)).
  now destruct (Qlt_bool 0 following).
Qed.

Lemma detect_negated (cfg : ScanConfiguration) (src : string) (value : Q -> option Q)
      (prevTime prevValue currTime currValue : Q) :
  mirrored_detection value
    (detect cfg src (negated value) prevTime (- prevValue) currTime (- currValue))
    (detect cfg src value prevTime prevValue currTime currValue).
Proof.
  unfold detect. rewrite Qeq_bool_opp, crossing_opp, refine_negated.
  destruct (Qeq_bool currValue 0); [apply at_zero_negated|].
  destruct (crossing prevValue currValue) as [d|]; simpl; [|exact I].
  destruct (refine cfg value (maxIterations cfg) prevTime currTime prevValue); simpl;
    try exact I.
  repeat split.
Qed.

Lemma scan_loop_negated (cfg : ScanConfiguration) (src : string) (value : Q -> option Q) :
  forall n prevTime prevValue log' log,
    Forall2 (mirrored value) log' log ->
    Forall2 (mirrored value)
            (fst (scan_loop cfg src (negated value) n prevTime (- prevValue) log'))
            (fst (scan_loop cfg src value n prevTime prevValue log))
    /\ snd (scan_loop cfg src (negated value) n prevTime (- prevValue) log')
       = snd (scan_loop cfg src value n prevTime prevValue log).
Proof.
  induction n as [|n IH]; intros prevTime prevValue log' log Hlog; simpl.
  - now split.
  - change (negated value (prevTime + stepBudget cfg))
      with (option_map Qopp (value (prevTime + stepBudget cfg))).
    destruct (value (prevTime + stepBudget cfg)) as [currValue|]; cbn [option_map];
      [|now split].
    pose proof (detect_negated cfg src value prevTime prevValue
                               (prevTime + stepBudget cfg) currValue) as Hd.
    destruct (detect cfg src (negated value) prevTime (- prevValue)
                     (prevTime + stepBudget cfg) (- currValue)) as [|o'|];
      destruct (detect cfg src value prevTime prevValue
                       (prevTime + stepBudget cfg) currValue) as [|o|];
      simpl in Hd; try contradiction.
    + now apply IH.
    + assert (Hlog1 : Forall2 (mirrored value) (log' ++ [o']) (log ++ [o])).
      { apply Forall2_app; [assumption | now constructor]. }
      destruct (onEvent cfg); [now apply IH | now split].
    + now split.
Qed.

Lemma scan_values_negated (cfg : ScanConfiguration) (src : string) (value : Q -> option Q) :
  Forall2 (mirrored value)
          (fst (scan_values cfg src (negated value)))
          (fst (scan_values cfg src value))
  /\ snd (scan_values cfg src (negated value)) = snd (scan_values cfg src value).
Proof.
  unfold scan_values.
  change (negated value (startTime cfg)) with (option_map Qopp (value (startTime cfg))).
  destruct (value (startTime cfg)) as [startValue|]; cbn [option_map]; [|now split].
  rewrite Qeq_bool_opp.
  destruct (Qeq_bool startValue 0).
  - pose proof (at_zero_negated cfg src value (startTime cfg)) as Hz.
    destruct (at_zero cfg src (negated value) (startTime cfg)) as [|o'|];
      destruct (at_zero cfg src value (startTime cfg)) as [|o|];
      simpl in Hz; try contradiction; try (now split).
    destruct (onEvent cfg).
    + apply scan_loop_negated. now constructor.
    + split; [now constructor | reflexivity].
  - apply scan_loop_negated. constructor.
Qed.

Lemma mirrored_timestamps (value : Q -> option Q) (log' log : list Occurrence) :
  Forall2 (mirrored value) log' log -> map timestamp log' = map timestamp log.
Proof.
  induction 1 as [|o' o log' log Ho _ IH]; simpl; [reflexivity|].
  destruct Ho as [Ht _]. now rewrite Ht, IH.
Qed.

Lemma mirrored_flip (value : Q -> option Q) (log' log : list Occurrence) :
  never_zero value -> Forall2 (mirrored value) log' log -> log' = map flip log.
Proof.
  intros Hnz. induction 1 as [|o' o log' log Ho _ IH]; simpl; [reflexivity|].
  destruct Ho as (Ht & Hs & Hd). rewrite IH. f_equal.
  destruct o' as [t' d' s']. unfold flip. simpl in *.
  now rewrite Ht, Hs, (Hd Hnz).
Qed.

(** The engine on two overlapping intervals: with the first indicator
    true on [10, 20] and the second on [15, 25], their conjunction has one
    entry at 15 and one exit at 20, and their disjunction one entry at 10
    and one exit at 25. *)
Example conjunction_window :
  map (fun o => (Qred (timestamp o), direction o))
      (fst (scan overlap_configuration "and" Some (And first_interval second_interval)))
  = [(15, Entering); (20, Exiting)]
  /\ map (fun o => (Qred (timestamp o), direction o))
         (fst (scan overlap_configuration "or" Some (Or first_interval second_interval)))
     = [(10, Entering); (25, Exiting)].
Proof. split; vm_compute; reflexivity. Qed.

(** C7: the double negation of an indicator gives the same occurrences as
    the indicator, timestamps, directions and all. Negation is [-a]: it
    flips the sign of every value, is zero exactly where the indicator is,
    turns a crossing around, and the scan of the negated indicator has its
    occurrences at the same instants, with the directions reversed when no
    sample is exactly zero. *)
Theorem negation_of_indicators {State : Type} (cfg : ScanConfiguration) (src : string)
        (sample : Q -> option State) (n : Node State) :
  scan cfg src sample (Not (Not n)) = scan cfg src sample n
  /\ (forall s, evaluate (Not n) s = - evaluate n s)
  /\ (forall s, evaluate (Not n) s == 0 <-> evaluate n s == 0)
  /\ (forall p c, crossing (- p) (- c) = option_map reverse (crossing p c))
  /\ map timestamp (fst (scan cfg src sample (Not n)))
     = map timestamp (fst (scan cfg src sample n))
  /\ snd (scan cfg src sample (Not n)) = snd (scan cfg src sample n)
  /\ ((forall t s, sample t = Some s -> ~ evaluate n s == 0) ->
      fst (scan cfg src sample (Not n)) = map flip (fst (scan cfg src sample n))).
Proof.
  assert (Hneg : forall t, option_map (evaluate (Not n)) (sample t)
                           = negated (fun t => option_map (evaluate n) (sample t)) t).
  { intros t. unfold negated. now destruct (sample t). }
  pose proof (scan_values_negated cfg src (fun t => option_map (evaluate n) (sample t)))
    as [Hlog Hstatus].
  unfold scan.
  rewrite (scan_values_ext cfg src _ _ Hneg).
  split; [|split; [|split; [|split; [|split; [|split]]]]].
  - apply scan_values_ext. intros t. destruct (sample t); simpl; [|reflexivity].
    now rewrite Qopp_opp.
  - reflexivity.
  - intros s. simpl. split; intros H.
    + rewrite <- (Qopp_opp (evaluate n s)), H. reflexivity.
    + rewrite H. reflexivity.
  - apply crossing_opp.
  - now apply mirrored_timestamps with (value := fun t => option_map (evaluate n) (sample t)).
  - exact Hstatus.
  - intros Hnz. apply mirrored_flip with (value := fun t => option_map (evaluate n) (sample t));
      [|exact Hlog].
    intros t v Hv. destruct (sample t) as [s|] eqn:Hs; simpl in Hv; [|discriminate].
    inversion Hv; subst. now apply (Hnz t s).
Qed.

Lemma negation_of_indicators_witness :
  fst (scan sample_configuration "fov" Some (Not step_indicator))
  = map flip (fst (scan sample_configuration "fov" Some step_indicator)).
Proof.
  apply (negation_of_indicators sample_configuration "fov" Some step_indicator).
  intros t s Hs. simpl. destruct (Qlt_bool s (5 # 2)); discriminate.
Defined.

End EngineFacts.

(** ** The event tables on arbitrary logs *)

Section TableOutcomes.
Import Py Orekit FoV.

Lemma loop_after_entry (is_entry : LoggedEvent -> bool) (events : list LoggedEvent) :
  forall st en, entry_date st = Some en ->
    exists st', for_each (body is_entry) events st = inr st'.
Proof.
  induction events as [|event events IH]; intros st en Hen; simpl.
  - now exists st.
  - unfold body at 1. destruct (is_entry event); simpl.
    + eapply IH. reflexivity.
    + rewrite Hen. simpl. eapply IH. reflexivity.
Qed.

Lemma loop_from_fresh (is_entry : LoggedEvent -> bool) (events : list LoggedEvent) :
  if starts_with_exit is_entry events
  then for_each (body is_entry) events fresh = inl NameError
  else exists st, for_each (body is_entry) events fresh = inr st.
Proof.
  destruct events as [|event events]; cbn [starts_with_exit for_each].
  - now exists fresh.
  - destruct (is_entry event) eqn:Hev; cbn [negb].
    + assert (Hb : body is_entry fresh event
                   = inr (mkCell [date_str (getDate event)] [] [] (Some (getDate event)))).
      { unfold body. now rewrite Hev. }
      rewrite Hb. cbn [bind]. eapply loop_after_entry. reflexivity.
    + assert (Hb : body is_entry fresh event = inl NameError).
      { unfold body. now rewrite Hev. }
      now rewrite Hb.
Qed.

Lemma frame_rows (st : Cell) (rows : list Row) :
  DataFrame st = inr rows -> List.length rows = List.length (exit_list st).
Proof.
  unfold DataFrame.
  destruct (Nat.eqb_spec (List.length (entry_list st)) (List.length (exit_list st))) as [He|];
    [|discriminate].
  destruct (Nat.eqb_spec (List.length (exit_list st)) (List.length (duration_list st))) as [Hd|];
    [|discriminate].
  simpl. intros H. inversion H; subst.
  rewrite length_map, !length_combine. lia.
Qed.

Lemma table_outcome (is_entry : LoggedEvent -> bool) (events : list LoggedEvent) :
  outcome is_entry events (bind (for_each (body is_entry) events fresh) DataFrame).
Proof.
  unfold outcome. pose proof (loop_from_fresh is_entry events) as Hloop.
  destruct (starts_with_exit is_entry events).
  - now rewrite Hloop.
  - destruct Hloop as [st Hrun]. rewrite Hrun. simpl.
    pose proof (loop_lists is_entry events fresh st Hrun) as [He Hx]. simpl in He, Hx.
    pose proof (loop_lengths is_entry events fresh st Hrun eq_refl) as Hlen.
    assert (Hen : List.length (entry_list st) = entries is_entry events).
    { rewrite He. unfold entries, dates. now rewrite length_map. }
    assert (Hex : List.length (exit_list st) = exits is_entry events).
    { rewrite Hx. unfold exits, dates. now rewrite length_map. }
    rewrite <- Hen, <- Hex.
    destruct (Nat.eqb_spec (List.length (entry_list st)) (List.length (exit_list st))) as [Heq|Hne].
    + destruct (DataFrame st) as [e|rows] eqn:Hdf.
      * exfalso. unfold DataFrame in Hdf.
        rewrite Heq, Hlen, !Nat.eqb_refl in Hdf. discriminate.
      * exists rows. split; [reflexivity | now apply frame_rows].
    + unfold DataFrame. apply Nat.eqb_neq in Hne. now rewrite Hne.
Qed.

(** X1: every log has exactly one of three outcomes in each of the three
    table cells: [NameError] when its first event is an exit, a table
    with one row per exit when it starts with an entry and has as many
    entries as exits, [ValueError] otherwise. *)
Theorem table_outcomes (events : list LoggedEvent) :
  outcome gfov_is_entry events (df_gfov events)
  /\ outcome ele_is_entry events (df_ele events)
  /\ outcome comb_is_entry events (df_comb events).
Proof. repeat split; apply table_outcome. Qed.

Lemma loop_latest (is_entry : LoggedEvent -> bool) (events : list LoggedEvent) :
  forall before st st',
    entry_date st = latest_entry is_entry before ->
    for_each (body is_entry) events st = inr st' ->
    entry_date st' = latest_entry is_entry (before ++ events).
Proof.
  induction events as [|event events IH]; intros before st st' Hinv Hrun; simpl in Hrun.
  - inversion Hrun; subst. now rewrite app_nil_r.
  - replace (before ++ event :: events) with ((before ++ [event]) ++ events)
      by now rewrite <- app_assoc.
    unfold body at 1 in Hrun. destruct (is_entry event) eqn:Hev; simpl in Hrun.
    + eapply IH; [|exact Hrun]. simpl.
      unfold latest_entry. rewrite rev_app_distr. simpl. now rewrite Hev.
    + destruct (entry_date st) as [en|] eqn:Hen; simpl in Hrun; [|discriminate].
      eapply IH; [|exact Hrun]. simpl.
      unfold latest_entry in *. rewrite rev_app_distr. simpl. rewrite Hev. exact Hinv.
Qed.

Lemma loop_appends (is_entry : LoggedEvent -> bool) (events : list LoggedEvent) :
  forall st st',
    for_each (body is_entry) events st = inr st' ->
    exists more, duration_list st' = duration_list st ++ more.
Proof.
  induction events as [|event events IH]; intros st st' Hrun; simpl in Hrun.
  - inversion Hrun; subst. exists []. now rewrite app_nil_r.
  - unfold body at 1 in Hrun. destruct (is_entry event); simpl in Hrun.
    + apply IH in Hrun. exact Hrun.
    + destruct (entry_date st) as [en|]; simpl in Hrun; [|discriminate].
      apply IH in Hrun. destruct Hrun as [more Hmore]. simpl in Hmore.
      eexists. rewrite Hmore, <- app_assoc. reflexivity.
Qed.

Lemma duration_of_exit (is_entry : LoggedEvent -> bool)
      (pre : list LoggedEvent) (x : LoggedEvent) (post : list LoggedEvent) (st : Cell) :
  for_each (body is_entry) (pre ++ x :: post) fresh = inr st ->
  is_entry x = false ->
  exists en,
    latest_entry is_entry pre = Some en
    /\ nth_error (duration_list st) (exits is_entry pre)
       = Some (durationFrom (getDate x) en / 60).
Proof.
  intros Hrun Hx. rewrite for_each_app in Hrun.
  destruct (for_each (body is_entry) pre fresh) as [e|st1] eqn:Hpre; simpl in Hrun;
    [discriminate|].
  pose proof (loop_latest is_entry pre [] fresh st1 eq_refl Hpre) as Hlatest.
  simpl in Hlatest.
  pose proof (loop_lists is_entry pre fresh st1 Hpre) as [_ Hexits]. simpl in Hexits.
  pose proof (loop_lengths is_entry pre fresh st1 Hpre eq_refl) as Hlen.
  unfold body at 1 in Hrun. rewrite Hx in Hrun.
  destruct (entry_date st1) as [en|] eqn:Hen; simpl in Hrun; [|discriminate].
  exists en. split; [now rewrite <- Hlatest|].
  apply loop_appends in Hrun. destruct Hrun as [more Hmore]. simpl in Hmore.
  rewrite Hmore, <- app_assoc.
  assert (Hidx : exits is_entry pre = List.length (duration_list st1)).
  { rewrite <- Hlen, Hexits. unfold exits, dates. now rewrite length_map. }
  rewrite Hidx, nth_error_app2 by lia. now rewrite Nat.sub_diag.
Qed.

(** X2: in each of the three loops, when the loop ends without an error the
    duration appended for an exit is counted from the latest entry
    logged before it, in minutes: an entry that follows another entry
    replaces it, and an exit that follows another exit is counted from
    the same entry again. *)
Theorem durations_from_latest_entry
        (loop : list LoggedEvent -> Result Cell) (is_entry : LoggedEvent -> bool)
        (pre : list LoggedEvent) (x : LoggedEvent) (post : list LoggedEvent) (st : Cell) :
  In (loop, is_entry) loops ->
  loop (pre ++ x :: post) = inr st ->
  is_entry x = false ->
  exists en,
    latest_entry is_entry pre = Some en
    /\ nth_error (duration_list st) (exits is_entry pre)
       = Some (durationFrom (getDate x) en / 60).
Proof.
  intros Hin.
  destruct Hin as [H | [H | [H | []]]]; inversion H; subst; apply duration_of_exit.
Qed.

Lemma durations_from_latest_entry_witness :
  exists en,
    latest_entry gfov_is_entry reentry = Some en
    /\ nth_error [durationFrom gfov_out_2 gfov_in_2 / 60] (exits gfov_is_entry reentry)
       = Some (durationFrom (getDate (mkEvent gfov_out_2 true)) en / 60).
Proof.
  apply (durations_from_latest_entry gfov_loop gfov_is_entry reentry
           (mkEvent gfov_out_2 true) []
           (mkCell [date_str gfov_in_1; date_str gfov_in_2] [date_str gfov_out_2]
                   [durationFrom gfov_out_2 gfov_in_2 / 60] (Some gfov_in_2))).
  - left. reflexivity.
  - reflexivity.
  - reflexivity.
Defined.

Lemma count_append (c : ascii) (s t : string) :
  count_char c (s ++ t) = (count_char c s + count_char c t)%nat.
Proof. induction s as [|a s IH]; simpl; [reflexivity | rewrite IH; lia]. Qed.

Lemma length_append (s t : string) :
  String.length (s ++ t) = (String.length s + String.length t)%nat.
Proof. induction s as [|a s IH]; simpl; [reflexivity | now rewrite IH]. Qed.

Lemma replace_T (s : string) :
  count_char "T" (replace "T" arrow s) = 0%nat
  /\ String.length (replace "T" arrow s) = (String.length s + 4 * count_char "T" s)%nat
  /\ (count_char "T" s = 0%nat -> replace "T" arrow s = s).
Proof.
  induction s as [|a s (IH1 & IH2 & IH3)]; cbn [replace count_char String.length].
  - repeat split; reflexivity.
  - destruct (Ascii.eqb a "T") eqn:Ha.
    + split; [|split].
      * rewrite count_append, IH1. reflexivity.
      * rewrite length_append, IH2. change (String.length arrow) with 5%nat. lia.
      * discriminate.
    + cbn [count_char String.length]. rewrite Ha. split; [|split].
      * exact IH1.
      * rewrite IH2. lia.
      * intros H. now rewrite IH3.
Qed.

(** X3: the displayed form of a date has no [T] left: every [T] of the
    printed date is replaced by the five characters of the arrow, and a
    printed date without a [T] is displayed as it is. *)
Theorem date_str_has_no_T (d : AbsoluteDate) :
  count_char "T" (date_str d) = 0%nat
  /\ String.length (date_str d) = (String.length (iso d) + 4 * count_char "T" (iso d))%nat
  /\ (count_char "T" (iso d) = 0%nat -> date_str d = iso d).
Proof. apply replace_T. Qed.

Lemma date_str_has_no_T_witness :
  date_str (mkDate "2024-09-21 13:10:20.947Z" 0) = "2024-09-21 13:10:20.947Z"%string.
Proof.
  apply (proj2 (proj2 (date_str_has_no_T (mkDate "2024-09-21 13:10:20.947Z" 0)))).
  reflexivity.
Defined.

End TableOutcomes.

(** ** The latitude/longitude table: symmetry and order of the prints *)

Section PairingSymmetry.
Import Py Orekit LatLon.

Lemma str_gt_neither (a b : string) :
  str_gt a b = false -> str_gt b a = false -> a = b.
Proof.
  unfold str_gt. rewrite (String.compare_antisym a b).
  destruct (String.compare b a) eqn:Hc; simpl; try discriminate.
  intros _ _. symmetry. now apply String.compare_eq_iff.
Qed.

Lemma ordered_swap (e x : string) : ordered (mkRow e x) = ordered (mkRow x e).
Proof.
  unfold ordered. simpl.
  destruct (str_gt e x) eqn:Hex, (str_gt x e) eqn:Hxe; try reflexivity.
  - apply str_gt_asym in Hex. congruence.
  - now rewrite (str_gt_neither e x Hex Hxe).
Qed.

Lemma ordered_idempotent (r : Row) : ordered (ordered r) = ordered r.
Proof.
  destruct r as [e x]. unfold ordered. cbn [Entries Exits].
  destruct (str_gt e x) eqn:Hgt; cbn [Entries Exits].
  - now rewrite (str_gt_asym _ _ Hgt).
  - now rewrite Hgt.
Qed.

Lemma concat_swap (giris cikis : list string) :
  map ordered (concat cikis giris) = map ordered (concat giris cikis).
Proof.
  unfold concat. revert cikis.
  induction giris as [|g giris IH]; intros [|c cikis]; simpl; try reflexivity.
  now rewrite IH, (ordered_swap c g).
Qed.

(** X4: the table does not depend on which log is the entry log: giving
    the two logs the other way round yields the same latitude table and
    the same longitude table. *)
Theorem table_ignores_log_roles (entry_events exit_events : list LoggedEvent) :
  lat_df exit_events entry_events = lat_df entry_events exit_events
  /\ lon_df exit_events entry_events = lon_df entry_events exit_events.
Proof.
  unfold lat_df, lon_df. rewrite !table_map. split; apply concat_swap.
Qed.

(** X5: running the order adjustment again on a table changes nothing. *)
Theorem order_adjustment_is_idempotent (giris cikis : list string) (df : list Row) :
  order_adjustment (order_adjustment df) = order_adjustment df
  /\ order_adjustment (table giris cikis) = table giris cikis.
Proof.
  assert (H : forall l, order_adjustment (order_adjustment l) = order_adjustment l).
  { intros l. rewrite !order_adjustment_map, map_map.
    apply map_ext. intros r. apply ordered_idempotent. }
  split; [apply H | unfold table; apply H].
Qed.

Lemma compare_common_prefix (p a b : string) :
  String.compare (p ++ a) (p ++ b) = String.compare a b.
Proof.
  induction p as [|c p IH]; simpl; [reflexivity|].
  assert (Hc : Ascii.compare c c = Eq) by (unfold Ascii.compare; apply N.compare_refl).
  now rewrite Hc.
Qed.

(** X6: the adjustment compares the printed dates as strings: a date
    printed with fewer decimals, so that its [Z] stands where the other
    print has a digit, counts as the later one. An entry printed
    [p ++ "Z"] that is not later in time than an exit printed [p]
    followed by more digits is exchanged with it all the same: on such
    a pair the order of the prints is not the order in time, and the
    row shows the exit under the entries. *)
Theorem shorter_print_sorts_later (p rest : string) (c : ascii) (en ex : LoggedEvent) :
  Ascii.compare c "Z" = Lt ->
  iso (getDate en) = (p ++ "Z")%string ->
  iso (getDate ex) = (p ++ String c rest)%string ->
  (offset (getDate en) <= offset (getDate ex))%Q ->
  lat_df [en] [ex] = [mkRow (iso (getDate ex)) (iso (getDate en))]
  /\ lon_df [en] [ex] = [mkRow (iso (getDate ex)) (iso (getDate en))]
  /\ ~ print_order_agrees (getDate en) (getDate ex).
Proof.
  intros Hc Hen Hex Htime.
  assert (Hgt : str_gt (p ++ "Z") (p ++ String c rest) = true).
  { unfold str_gt. rewrite compare_common_prefix. simpl.
    rewrite (Ascii.compare_antisym "Z" c), Hc. reflexivity. }
  assert (Hrow : table (logged [en]) (logged [ex])
                 = [mkRow (iso (getDate ex)) (iso (getDate en))]).
  { unfold logged. simpl map. rewrite table_map. unfold concat, ordered. simpl.
    now rewrite Hen, Hex, Hgt. }
  split; [exact Hrow | split; [exact Hrow |]].
  unfold print_order_agrees. rewrite Hen, Hex. intros [Hlater _].
  specialize (Hlater Hgt). apply Qlt_not_le in Hlater. contradiction.
Qed.

Lemma shorter_print_sorts_later_witness :
  lat_df [mkEvent (mkDate "2024-09-15T05:12:40.5Z" (81 # 2)) true]
         [mkEvent (mkDate "2024-09-15T05:12:40.52Z" (1013 # 25)) true]
  = [mkRow "2024-09-15T05:12:40.52Z" "2024-09-15T05:12:40.5Z"]
  /\ lon_df [mkEvent (mkDate "2024-09-15T05:12:40.5Z" (81 # 2)) true]
            [mkEvent (mkDate "2024-09-15T05:12:40.52Z" (1013 # 25)) true]
     = [mkRow "2024-09-15T05:12:40.52Z" "2024-09-15T05:12:40.5Z"]
  /\ ~ print_order_agrees (mkDate "2024-09-15T05:12:40.5Z" (81 # 2))
                          (mkDate "2024-09-15T05:12:40.52Z" (1013 # 25)).
Proof.
  apply (shorter_print_sorts_later "2024-09-15T05:12:40.5" "Z" "2"
           (mkEvent (mkDate "2024-09-15T05:12:40.5Z" (81 # 2)) true)
           (mkEvent (mkDate "2024-09-15T05:12:40.52Z" (1013 # 25)) true)
           eq_refl eq_refl eq_refl).
  unfold Qle. simpl. lia.
Defined.

End PairingSymmetry.

(** ** The dates the propagation loop queries *)

Section LoopDates.
Import Orekit FoV.
Local Open Scope Q_scope.
Variables World Position : Type.
Variable getPVCoordinates : World -> Q -> World * Position.

Lemma shifted_length (n : nat) (d dt : Q) : List.length (shifted n d dt) = n.
Proof. revert d. induction n as [|n IH]; intros d; simpl; [reflexivity | now rewrite IH]. Qed.

Lemma dates_in_span (dt finalDate : Q) :
  0 < dt ->
  forall n initialDate,
    iterations dt initialDate finalDate = n ->
    Forall (fun d => initialDate <= d /\ d <= finalDate) (shifted n initialDate dt)
    /\ Qle_bool (advanced n initialDate dt) finalDate = false.
Proof.
  intros Hdt. induction n as [|n IH]; intros initialDate Hn.
  - split; [constructor|]. simpl.
    destruct (Qle_bool initialDate finalDate) eqn:Hle; [|reflexivity].
    rewrite (iterations_step _ _ _ Hdt Hle) in Hn. discriminate.
  - destruct (Qle_bool initialDate finalDate) eqn:Hle.
    + rewrite (iterations_step _ _ _ Hdt Hle) in Hn. injection Hn as Hn.
      destruct (IH _ Hn) as [Hall Hstop]. simpl. split; [|exact Hstop].
      constructor.
      * split; [apply Qle_refl | now apply Qle_bool_iff].
      * eapply Forall_impl; [|exact Hall]. simpl. intros d [H1 H2]. split; [Lqa.lra | assumption].
    + rewrite (iterations_end _ _ _ Hle) in Hn. discriminate.
Qed.

(** X7: with a positive step the loop queries the propagator only at dates
    between [initialDate] and [finalDate], as many as [iterations]
    counts, and it ends at the first date past [finalDate]. *)
Theorem queried_dates_stay_in_span (w : World) (dt initialDate finalDate : Q) (fuel : nat) :
  0 < dt ->
  (iterations dt initialDate finalDate <= fuel)%nat ->
  exists ds,
    propagation getPVCoordinates fuel dt w initialDate finalDate []
    = Some (queries getPVCoordinates w ds)
    /\ List.length ds = iterations dt initialDate finalDate
    /\ Forall (fun d => initialDate <= d /\ d <= finalDate) ds
    /\ finalDate < advanced (List.length ds) initialDate dt.
Proof.
  intros Hdt Hfuel.
  exists (shifted (iterations dt initialDate finalDate) initialDate dt).
  destruct (dates_in_span dt finalDate Hdt _ initialDate eq_refl) as [Hall Hstop].
  split; [|split; [|split]].
  - rewrite (propagation_queries World Position getPVCoordinates dt finalDate Hdt
               fuel w initialDate [] Hfuel).
    simpl. now destruct (queries getPVCoordinates _ _).
  - apply shifted_length.
  - exact Hall.
  - rewrite shifted_length. apply Qnot_le_lt. intros Hle.
    apply Qle_bool_iff in Hle. rewrite Hle in Hstop. discriminate.
Qed.

End LoopDates.

Lemma queried_dates_stay_in_span_witness :
  exists ds,
    FoV.propagation FoV.record_query 3 FoV.shift ([], []) 0 25 []
    = Some (FoV.queries FoV.record_query ([], []) ds)
    /\ List.length ds = FoV.iterations FoV.shift 0 25
    /\ Forall (fun d => (0 <= d /\ d <= 25)%Q) ds
    /\ (25 < FoV.advanced (List.length ds) 0 FoV.shift)%Q.
Proof.
  apply (queried_dates_stay_in_span FoV.Recorder Q FoV.record_query ([], []) FoV.shift 0 25 3).
  - reflexivity.
  - apply le_n.
Defined.

(** ** Julian day number: the calendar, in the doubles of the cell *)

Section CalendarFacts.
Import Stdlib.Floats.Floats.
Import Py PyFloat SiderealTime.
#[local] Set Warnings "-inexact-float".
Local Open Scope Z_scope.

Lemma checked_on (P : Z -> bool) (n : nat) :
  forall lo, holds_from P lo n = true -> forall z, lo <= z < lo + Z.of_nat n -> P z = true.
Proof.
  induction n as [|n IH]; intros lo H z Hz; [lia|].
  cbn [holds_from] in H. apply andb_prop in H. destruct H as [H0 H].
  destruct (Z.eq_dec z lo) as [->|Hne]; [exact H0|].
  apply (IH (lo + 1) H). lia.
Qed.

Lemma quotient_of (a b : Z) :
  quotient_agrees a b = true ->
  exists f, truediv a b = inr f /\ int_of_float f = inr (Z.quot a b).
Proof.
  unfold quotient_agrees. destruct (truediv a b) as [e|f]; [discriminate|].
  destruct (int_of_float f) as [e|q] eqn:Hq; [discriminate|].
  intros H. apply Z.eqb_eq in H. subst q. exists f. split; [reflexivity | exact Hq].
Qed.

Lemma years_checked : holds_from (fun w => quotient_agrees (7 * w) 4) 1901 201 = true.
Proof. vm_compute. reflexivity. Qed.

Lemma months_checked :
  holds_from (fun m => quotient_agrees (m + 9) 12 && quotient_agrees (275 * m) 9) 1 12 = true.
Proof. vm_compute. reflexivity. Qed.

Lemma steps_checked : holds_from step_is_exact 694000 (Z.to_nat 73500) = true.
Proof. vm_compute. reflexivity. Qed.

Lemma J0_exact (year month day : Z) :
  1901 <= year <= 2100 -> 1 <= month <= 12 ->
  J0 year month day
  = bind (float_of_int (day_number year month day)) (fun n => ret (n + 1721013.5)%float).
Proof.
  intros Hy Hm.
  pose proof (checked_on _ _ _ months_checked month ltac:(simpl; lia)) as Hq.
  apply andb_prop in Hq. destruct Hq as [Hq1 Hq3].
  destruct (quotient_of _ _ Hq1) as (f1 & Hf1 & Hi1).
  destruct (quotient_of _ _ Hq3) as (f3 & Hf3 & Hi3).
  assert (Hw : 1901 <= year + Z.quot (month + 9) 12 < 1901 + Z.of_nat 201).
  { assert (0 <= Z.quot (month + 9) 12 <= 1).
    { rewrite Z.quot_div_nonneg by lia. Z.to_euclidean_division_equations. lia. }
    simpl. lia. }
  pose proof (checked_on _ _ _ years_checked _ Hw) as Hq2.
  destruct (quotient_of _ _ Hq2) as (f2 & Hf2 & Hi2).
  unfold J0, day_number.
  rewrite Hf1. cbn [bind]. rewrite Hi1. cbn [bind].
  rewrite Hf2. cbn [bind]. rewrite Hi2. cbn [bind].
  rewrite Hf3. cbn [bind]. rewrite Hi3. cbn [bind]. reflexivity.
Qed.
Lemma day_number_next (year month day : Z) :
  0 <= year -> 1 <= month <= 12 -> 1 <= day <= month_length year month ->
  on_date day_number (next_day year month day) = day_number year month day + 1.
Proof.
  intros Hy Hm Hd. unfold next_day.
  destruct (Z.ltb_spec day (month_length year month)) as [Hlt | Hge].
  - unfold on_date, day_number. lia.
  - assert (Hday : day = month_length year month) by lia.
    destruct (Z.ltb_spec month 12) as [Hm12 | Hm12]; unfold on_date, day_number; rewrite Hday.
    + assert (Hcases : month = 1 \/ month = 2 \/ month = 3 \/ month = 4 \/ month = 5
                       \/ month = 6 \/ month = 7 \/ month = 8 \/ month = 9 \/ month = 10
                       \/ month = 11) by lia.
      unfold month_length, leap.
      destruct Hcases as [-> | [-> | [-> | [-> | [-> | [-> | [-> | [-> | [-> | [-> | ->]]]]]]]]]];
        cbn -[Z.quot Z.mul Z.add Z.sub Z.modulo];
        try (vm_compute (Z.quot _ 12)); try (vm_compute (Z.quot (275 * _) 9));
        try lia.
      rewrite !Z.quot_div_nonneg by lia.
      destruct (Z.eqb_spec (year mod 4) 0); Z.to_euclidean_division_equations; lia.
    + assert (month = 12) by lia. subst month.
      change (month_length year 12) with 31.
      change (Z.quot (1 + 9) 12) with 0. change (Z.quot (12 + 9) 12) with 1.
      change (Z.quot (275 * 1) 9) with 30. change (Z.quot (275 * 12) 9) with 366.
      replace (year + 1 + 0) with (year + 1) by lia. lia.
Qed.

Lemma day_number_range (year month day : Z) :
  1901 <= year <= 2099 -> 1 <= month <= 12 -> 1 <= day <= month_length year month ->
  694000 <= day_number year month day < 694000 + 73500.
Proof.
  intros Hy Hm Hd. unfold day_number.
  assert (Hlen : month_length year month <= 31).
  { unfold month_length. destruct (month =? 2); [destruct (leap year); lia|].
    destruct ((month =? 4) || (month =? 6) || (month =? 9) || (month =? 11))%bool; lia. }
  assert (Ha : 0 <= Z.quot (month + 9) 12 <= 1).
  { rewrite Z.quot_div_nonneg by lia. Z.to_euclidean_division_equations. lia. }
  assert (Hc : 30 <= Z.quot (275 * month) 9 <= 366).
  { rewrite Z.quot_div_nonneg by lia. Z.to_euclidean_division_equations. lia. }
  set (a := Z.quot (month + 9) 12) in *. set (c := Z.quot (275 * month) 9) in *.
  assert (Hb : 7 * (year + a) - 3 <= 4 * Z.quot (7 * (year + a)) 4 <= 7 * (year + a)).
  { rewrite Z.quot_div_nonneg by lia. Z.to_euclidean_division_equations. lia. }
  lia.
Qed.

Lemma step_of (n : Z) :
  step_is_exact n = true ->
  exists f g, float_of_int n = inr f /\ float_of_int (n + 1) = inr g
              /\ (g + 1721013.5)%float = (f + 1721013.5 + 1)%float.
Proof.
  unfold step_is_exact.
  destruct (float_of_int n) as [e|f]; [discriminate|].
  destruct (float_of_int (n + 1)) as [e|g]; [discriminate|].
  intros H. apply FloatAxioms.Leibniz.eqb_spec in H. now exists f, g.
Qed.

Lemma next_day_range (year month day : Z) :
  1901 <= year <= 2099 -> 1 <= month <= 12 ->
  let '(y, m, d) := next_day year month day in 1901 <= y <= 2100 /\ 1 <= m <= 12.
Proof.
  intros Hy Hm. unfold next_day.
  destruct (day <? month_length year month); [lia|].
  destruct (Z.ltb_spec month 12); lia.
Qed.

(** X8: the day number counts calendar days in the doubles of the cell:
    for every date of the civil calendar from 1901-01-01 to 2099-12-31
    [J0] is computed without an exception, and [J0] of the next calendar
    day (the next day of the month, the first of the next month after
    the last day of a month, the first of January after the 31st of
    December) is [J0 + 1.0]. *)
Theorem J0_counts_days (year month day : Z) :
  1901 <= year <= 2099 -> 1 <= month <= 12 -> 1 <= day <= month_length year month ->
  exists j,
    J0 year month day = inr j
    /\ on_date J0 (next_day year month day) = inr (j + 1)%float.
Proof.
  intros Hy Hm Hd.
  pose proof (day_number_next year month day ltac:(lia) Hm Hd) as Hnext.
  pose proof (day_number_range year month day Hy Hm Hd) as Hrange.
  pose proof (next_day_range year month day Hy Hm) as Hnd.
  assert (Hin : 694000 <= day_number year month day < 694000 + Z.of_nat (Z.to_nat 73500))
    by (rewrite Z2Nat.id by lia; exact Hrange).
  destruct (step_of _ (checked_on _ _ _ steps_checked _ Hin)) as (f & g & Hf & Hg & Hstep).
  exists (f + 1721013.5)%float. split.
  - rewrite J0_exact by lia. rewrite Hf. reflexivity.
  - destruct (next_day year month day) as [[y m] d]. cbn [on_date] in *.
    rewrite J0_exact by lia. rewrite Hnext, Hg. cbn [bind ret]. now rewrite Hstep.
Qed.

Lemma J0_counts_days_witness :
  exists j, J0 2024 2 29 = inr j /\ J0 2024 3 1 = inr (j + 1)%float.
Proof.
  apply (J0_counts_days 2024 2 29); [lia | lia | vm_compute; split; discriminate].
Defined.

End CalendarFacts.


(** ** Right ascension and declination: ranges, scale and inverse *)

Section RaDecRanges.
Import RaDec.
Local Open Scope R_scope.



















End RaDecRanges.

(** ** Kepler elements from position and velocity *)

Section KeplerFacts.
Import RaDec Kepler.
Local Open Scope R_scope.

Lemma ratio_le_1 (p q : R) : 0 < q -> p <= q -> p / q <= 1.
Proof.
  intros Hq Hp. replace 1 with (q / q) by (field; lra).
  apply Rmult_le_compat_r; [left; apply Rinv_0_lt_compat; assumption | assumption].
Qed.



Lemma mag_sqr (v : Vec) : mag v ^ 2 = dot v v.
Proof.
  unfold mag, dot. rewrite <- Rsqr_pow2, Rsqr_sqrt; [ring|].
  pose proof (pow2_ge_0 (x_ v)). pose proof (pow2_ge_0 (y_ v)). pose proof (pow2_ge_0 (z_ v)).
  lra.
Qed.

Lemma mag_nonneg (v : Vec) : 0 <= mag v.
Proof. apply sqrt_pos. Qed.

Lemma dot_nonneg (v : Vec) : 0 <= dot v v.
Proof.
  unfold dot.
  pose proof (pow2_ge_0 (x_ v)). pose proof (pow2_ge_0 (y_ v)). pose proof (pow2_ge_0 (z_ v)).
  lra.
Qed.

Lemma e_mag_sqr (pos vel : Vec) : e_mag pos vel ^ 2 = dot (e pos vel) (e pos vel).
Proof.
  unfold e_mag. rewrite <- Rsqr_pow2, Rsqr_sqrt; [reflexivity | apply dot_nonneg].
Qed.

(** Lagrange's identity. *)
Lemma lagrange (u v : Vec) :
  dot (cross u v) (cross u v) = dot u u * dot v v - dot u v ^ 2.
Proof.
  destruct u as [[ux uy] uz], v as [[vx vy] vz].
  unfold dot, cross, x_, y_, z_. cbn [fst snd]. ring.
Qed.

Lemma cauchy_schwarz (u v : Vec) (m n : R) :
  0 < m -> 0 < n -> m ^ 2 = dot u u -> n ^ 2 = dot v v ->
  -1 <= dot u v / (m * n) <= 1.
Proof.
  intros Hm Hn Hu Hv.
  pose proof (dot_nonneg (cross u v)) as Hc. rewrite lagrange, <- Hu, <- Hv in Hc.
  assert (Hmn : 0 < m * n) by (apply Rmult_lt_0_compat; assumption).
  assert (Hsq : (dot u v / (m * n)) ^ 2 <= 1).
  { replace ((dot u v / (m * n)) ^ 2) with (dot u v ^ 2 / (m ^ 2 * n ^ 2)) by (field; lra).
    assert (0 < m ^ 2 * n ^ 2) by (apply Rmult_lt_0_compat; apply pow_lt; assumption).
    apply ratio_le_1; [assumption | lra]. }
  split; nra.
Qed.

Lemma angle_second_half (c : R) : angle false c = 2 * PI - acos c.
Proof. unfold angle, radians, degrees. field. apply PI_neq0. Qed.


Lemma angle_range (b : bool) (c : R) : -1 <= c <= 1 -> 0 <= angle b c <= 2 * PI.
Proof.
  intros Hc. pose proof (acos_bound c) as Hb. pose proof PI_RGT_0.
  destruct b; [cbn [angle] | rewrite angle_second_half]; lra.
Qed.






Lemma magnitude_pos (v : Vec) : mag v <> 0 -> 0 < mag v.
Proof. intros H. pose proof (mag_nonneg v). lra. Qed.

Lemma radial_speed (pos vel : Vec) :
  pos_mag pos <> 0 -> pos_mag pos * velr pos vel = dot vel pos.
Proof. intros H. unfold velr. field. assumption. Qed.

Lemma dot_sym (u v : Vec) : dot u v = dot v u.
Proof. unfold dot. ring. Qed.


Lemma e_dot_e (pos vel : Vec) :
  pos_mag pos <> 0 ->
  e_mag pos vel ^ 2
  = 1 + h_mag pos vel ^ 2 * (vel_mag vel ^ 2 - 2 * Mu / pos_mag pos) / Mu ^ 2.
Proof.
  intros Hr.
  pose proof (radial_speed pos vel Hr) as Hv.
  pose proof (mag_sqr pos) as Hp. fold (pos_mag pos) in Hp.
  pose proof (mag_sqr vel) as Hq. fold (vel_mag vel) in Hq.
  pose proof (mag_sqr (h pos vel)) as Hh. fold (h_mag pos vel) in Hh.
  unfold h in Hh. rewrite lagrange, <- Hp, <- Hq, (dot_sym pos vel), <- Hv in Hh.
  rewrite e_mag_sqr, Hh.
  assert (He : dot (e pos vel) (e pos vel)
               = (1 / Mu) ^ 2 * ((vel_mag vel ^ 2 - Mu / pos_mag pos) ^ 2 * dot pos pos
                           - 2 * (vel_mag vel ^ 2 - Mu / pos_mag pos)
                             * (pos_mag pos * velr pos vel) * dot vel pos
                           + (pos_mag pos * velr pos vel) ^ 2 * dot vel vel)).
  { unfold e, scale, minus, dot, x_, y_, z_. cbn [fst snd]. ring. }
  rewrite He, <- Hp, <- Hq, <- Hv. unfold Mu. field. assumption.
Qed.









(** The state of the examples. *)
Lemma sample_pos_mag : pos_mag sample_pos = 7000.
Proof.
  unfold pos_mag, mag, sample_pos, x_, y_, z_. cbn [fst snd].
  replace (7000 ^ 2 + 0 ^ 2 + 0 ^ 2) with (7000²) by (unfold Rsqr; ring).
  apply sqrt_Rsqr. lra.
Qed.

Lemma sample_h : h sample_pos sample_vel = (0, -35000, 35000).
Proof.
  unfold h, cross, sample_pos, sample_vel, x_, y_, z_. cbn [fst snd].
  f_equal; [f_equal|]; ring.
Qed.

Lemma sample_h_mag : h_mag sample_pos sample_vel ^ 2 = 2450000000.
Proof.
  unfold h_mag. rewrite mag_sqr, sample_h. unfold dot, x_, y_, z_. cbn [fst snd]. ring.
Qed.

Lemma sample_h_mag_nonzero : h_mag sample_pos sample_vel <> 0.
Proof. intros H. pose proof sample_h_mag as Hs. rewrite H in Hs. lra. Qed.


Lemma sample_pos_mag_nonzero : pos_mag sample_pos <> 0.
Proof. rewrite sample_pos_mag. lra. Qed.

Lemma sample_e_mag : 0 < e_mag sample_pos sample_vel < 1.
Proof.
  pose proof (e_dot_e sample_pos sample_vel sample_pos_mag_nonzero) as He.
  rewrite sample_h_mag, sample_pos_mag in He.
  assert (Hv : vel_mag sample_vel ^ 2 = 51).
  { unfold vel_mag. rewrite mag_sqr. unfold dot, sample_vel, x_, y_, z_. cbn [fst snd]. ring. }
  rewrite Hv in He. unfold Mu in He.
  assert (H0 : 0 <= e_mag sample_pos sample_vel) by apply sqrt_pos.
  assert (Hlo : 0 < e_mag sample_pos sample_vel ^ 2) by lra.
  assert (Hhi : e_mag sample_pos sample_vel ^ 2 < 1) by lra.
  split; nra.
Qed.

(** X15: the position and the velocity span the orbital plane: the angular
    momentum is perpendicular to both, the node line lies in the equator
    and in the orbital plane, and the eccentricity vector lies in the
    orbital plane. *)
Theorem orbital_plane (pos vel : Vec) :
  dot (h pos vel) pos = 0
  /\ dot (h pos vel) vel = 0
  /\ dot (N pos vel) (h pos vel) = 0
  /\ z_ (N pos vel) = 0
  /\ dot (e pos vel) (h pos vel) = 0.
Proof.
  destruct pos as [[px py] pz], vel as [[vx vy] vz].
  unfold e, N, h, dot, cross, scale, minus, x_, y_, z_. cbn [fst snd].
  repeat split; ring.
Qed.



(** X17: when the angular momentum is not zero, the inclination lies in
    [0, pi] and is the angle between the angular momentum and the polar
    axis. *)
Theorem inclination_of_plane (pos vel : Vec) :
  h_mag pos vel <> 0 ->
  0 <= i pos vel <= PI /\ h_mag pos vel * cos (i pos vel) = z_ (h pos vel).
Proof.
  intros Hh. unfold h_mag in *.
  pose proof (magnitude_pos _ Hh) as Hpos.
  pose proof (mag_sqr (h pos vel)) as Hsq.
  destruct (cauchy_schwarz (0, 0, 1) (h pos vel) 1 (mag (h pos vel))) as [Hl Hu];
    [lra | assumption | unfold dot, x_, y_, z_; cbn [fst snd]; ring | assumption |].
  replace (dot (0, 0, 1) (h pos vel)) with (z_ (h pos vel)) in Hl, Hu
    by (unfold dot, x_, y_, z_; cbn [fst snd]; ring).
  rewrite Rmult_1_l in Hl, Hu.
  unfold i, h_mag. split; [apply acos_bound|].
  rewrite cos_acos by lra. field. assumption.
Qed.

Lemma inclination_of_plane_witness :
  0 <= i sample_pos sample_vel <= PI
  /\ h_mag sample_pos sample_vel * cos (i sample_pos sample_vel) = z_ (h sample_pos sample_vel).
Proof. apply inclination_of_plane. exact sample_h_mag_nonzero. Defined.



(** X19: the vis-viva equation: the semi-major axis that the cell finds
    (in metres, hence the factor 1000) ties the speed to the distance,
    v^2 = Mu (2 / r - 1 / a). *)
Theorem vis_viva (pos vel : Vec) :
  pos_mag pos <> 0 -> h_mag pos vel <> 0 -> e_mag pos vel ^ 2 <> 1 ->
  vel_mag vel ^ 2 = Mu * (2 / pos_mag pos - 1 / (a pos vel / 1000)).
Proof.
  intros Hr Hh He.
  pose proof (e_dot_e pos vel Hr) as Hee.
  unfold a.
  assert (1 - e_mag pos vel ^ 2 <> 0) by lra.
  replace (1 / (h_mag pos vel ^ 2 / Mu * (1 / (1 - e_mag pos vel ^ 2)) * 1000 / 1000))
    with (Mu * (1 - e_mag pos vel ^ 2) / h_mag pos vel ^ 2)
    by (unfold Mu; field; split; [assumption | lra]).
  rewrite Hee. unfold Mu. field. split; assumption.
Qed.

Lemma vis_viva_witness :
  vel_mag sample_vel ^ 2
  = Mu * (2 / pos_mag sample_pos - 1 / (a sample_pos sample_vel / 1000)).
Proof.
  apply vis_viva; [exact sample_pos_mag_nonzero | exact sample_h_mag_nonzero |].
  pose proof sample_e_mag. nra.
Defined.







End KeplerFacts.
